(** * Schema builder and actor adapter of the agent library

    A shallow embedding of [createSchemas] (src/schemas.ts) over a small
    model of the JavaScript values it handles, followed by models, written
    from the design document, of what the builder and the adapter interface
    rely on: [createEventSchemas] of ./utils and the four actor
    constructors declared by [StatelyAgentAdapter] (src/types.ts). *)

From Stdlib Require Import List String Ascii ZArith NArith Lia Bool.
From Stdlib Require Import Permutation Sorted DecimalString.
Import ListNotations.
Set Warnings "-register-all".
Local Open Scope string_scope.
Local Open Scope list_scope.

(* ================================================================== *)
(** * JavaScript values                                                 *)
(* ================================================================== *)

Module JS.

(** Plain data as the schema builder sees it. Arrays and objects carry the
    stamp of the allocation that created them, which is what [===] compares;
    [props] lists an object's own properties in the order they were created.
    Numbers are the integer-valued ones, enough for schema literals. *)
Inductive value : Type :=
| VUndefined
| VNull
| VBool (b : bool)
| VNum (z : Z)
| VStr (s : string)
| VArr (id : nat) (elems : list value)
| VObj (id : nat) (props : list (string * value)).

(** What a call can throw. [InvalidSchemaError] is the error the design
    document names for malformed descriptors. *)
Inductive exn : Type :=
| TypeError
| InvalidSchemaError.

Inductive outcome (A : Type) : Type :=
| Returns (a : A)
| Throws (e : exn).
Arguments Returns {A} a.
Arguments Throws {A} e.

(** Computations that may throw and may allocate: the state is the next
    free allocation stamp. *)
Definition M (A : Type) : Type := nat -> outcome (A * nat).

Definition ret {A} (a : A) : M A := fun n => Returns (a, n).

Definition bind {A B} (m : M A) (k : A -> M B) : M B :=
  fun n => match m n with
           | Returns (a, n') => k a n'
           | Throws e => Throws e
           end.

Definition throw {A} (e : exn) : M A := fun _ => Throws e.

Definition alloc : M nat := fun n => Returns (n, S n).

Notation "x <- m ;; k" := (bind m (fun x => k))
  (at level 100, m at next level, right associativity).

Definition new_object (ps : list (string * value)) : M value :=
  id <- alloc ;; ret (VObj id ps).

Definition new_array (xs : list value) : M value :=
  id <- alloc ;; ret (VArr id xs).

Fixpoint mapM {A B} (f : A -> M B) (l : list A) : M (list B) :=
  match l with
  | [] => ret []
  | a :: l' => b <- f a ;; bs <- mapM f l' ;; ret (b :: bs)
  end.

(** ** Property keys *)

(** An array index is a canonical numeric string below 2^32 - 1
    (ECMA-262, 6.1.7): the decimal rendering of its own value. *)
Definition array_index (k : string) : option N :=
  match NilZero.uint_of_string k with
  | Some d =>
      let n := N.of_uint d in
      if String.eqb (NilZero.string_of_uint (N.to_uint n)) k
         && (n <? 4294967295)%N
      then Some n else None
  | None => None
  end.

Definition is_array_index (k : string) : bool :=
  match array_index k with Some _ => true | None => false end.

Definition index_value (k : string) : N :=
  match array_index k with Some n => n | None => 0%N end.

Definition index_le (a b : string) : Prop :=
  (index_value a <= index_value b)%N.

Fixpoint insert_index (k : string) (ks : list string) : list string :=
  match ks with
  | [] => [k]
  | k' :: ks' =>
      if (index_value k <=? index_value k')%N then k :: ks
      else k' :: insert_index k ks'
  end.

Definition sort_indices (ks : list string) : list string :=
  fold_right insert_index [] ks.

(** OrdinaryOwnPropertyKeys (ECMA-262, 10.1.11.1) on string keys given in
    creation order: array indices first, ascending, then every other key
    in creation order. *)
Definition own_property_keys (ks : list string) : list string :=
  sort_indices (filter is_array_index ks)
  ++ filter (fun k => negb (is_array_index k)) ks.

Definition index_string (i : nat) : string :=
  NilZero.string_of_uint (Nat.to_uint i).

Fixpoint chars (s : string) : list value :=
  match s with
  | EmptyString => []
  | String c s' => VStr (String c EmptyString) :: chars s'
  end.

(** Own enumerable string-keyed properties in creation order, after
    ToObject: a string has its characters, an array its elements, booleans
    and numbers have none. *)
Definition own_entries (v : value) : list (string * value) :=
  match v with
  | VObj _ ps => ps
  | VArr _ xs => combine (map index_string (seq 0 (List.length xs))) xs
  | VStr s =>
      let cs := chars s in
      combine (map index_string (seq 0 (List.length cs))) cs
  | _ => []
  end.

(** The names a value's properties were declared with, in declaration
    order. *)
Definition declared_keys (v : value) : list string :=
  map fst (own_entries v).

(** The elements of an array value. *)
Definition elements (v : value) : list value :=
  match v with
  | VArr _ xs => xs
  | _ => []
  end.

Definition lookup (k : string) (ps : list (string * value)) : value :=
  match find (fun p => String.eqb (fst p) k) ps with
  | Some p => snd p
  | None => VUndefined
  end.

(** Property read [v.k] on a value that is not null or undefined. *)
Definition get (v : value) (k : string) : value :=
  lookup k (own_entries v).

Definition nullish (v : value) : bool :=
  match v with
  | VUndefined | VNull => true
  | _ => false
  end.

(** [Object.keys(v)] as a list of names; ToObject throws on null and
    undefined. *)
Definition enumerable_keys (v : value) : outcome (list string) :=
  if nullish v then Throws TypeError
  else Returns (own_property_keys (declared_keys v)).

(** [Object.keys(v)]: a fresh array of the names. *)
Definition Object_keys (v : value) : M value :=
  match enumerable_keys v with
  | Returns ks => new_array (map VStr ks)
  | Throws e => throw e
  end.

(** [Object.entries(v)] as a list of pairs, in the order of
    [Object.keys]. *)
Definition enumerable_entries (v : value)
  : outcome (list (string * value)) :=
  match enumerable_keys v with
  | Returns ks => Returns (map (fun k => (k, get v k)) ks)
  | Throws e => Throws e
  end.

(** Structure without identity: what a deep comparison looks at. *)
Fixpoint erase (v : value) : value :=
  match v with
  | VArr _ xs => VArr 0 (map erase xs)
  | VObj _ ps => VObj 0 (map (fun p => let '(k, x) := p in (k, erase x)) ps)
  | _ => v
  end.

Definition deep_equal (a b : value) : Prop := erase a = erase b.

(** Two outcomes that a caller comparing structure cannot tell apart. *)
Definition same_outcome (o1 o2 : outcome (value * nat)) : Prop :=
  match o1, o2 with
  | Returns (a, _), Returns (b, _) => deep_equal a b
  | Throws e1, Throws e2 => e1 = e2
  | _, _ => False
  end.

(** A function whose result does not depend on which stamps are free. *)
Definition stamp_blind (f : value -> M value) : Prop :=
  forall v m m', same_outcome (f v m) (f v m').

End JS.

(* ================================================================== *)
(** * Event schemas (./utils)                                          *)
(* ================================================================== *)

Module Utils.
Import JS.

(** The reserved discriminant property of an event object. *)
Definition discriminant : string := "type".

(** Object spread [{...v}]: the own enumerable properties in key order;
    spreading null or undefined copies nothing. *)
Definition spread (v : value) : list (string * value) :=
  match enumerable_entries v with
  | Returns es => es
  | Throws _ => []
  end.

(** Modelled from the spec: the payload properties an event descriptor
    declares (design document, 3), read by the missing ./utils. *)
Definition payload (descriptor : value) : value :=
  get descriptor "properties".

(** Modelled from the spec: the body of the event schema normalizer is in
    ./utils, which is not among the sources. Design document, 4.1: for
    each event name, an object schema with additionalProperties false, a
    type property fixed to a constant equal to the event name, and all
    declared payload properties merged in; type is always required (3:
    the discriminant is reserved, so the payload does not displace it). *)
Definition wrapEvent (eventType : string) (descriptor : value) : M value :=
  const <- new_object [("const", VStr eventType)] ;;
  properties <- new_object
    ((discriminant, const)
     :: filter (fun p => negb (String.eqb (fst p) discriminant))
          (spread (payload descriptor))) ;;
  required <- new_array [VStr discriminant] ;;
  new_object [("type", VStr "object");
              ("properties", properties);
              ("required", required);
              ("additionalProperties", VBool false)].

(** The schema [wrapEvent] returns when it starts at stamp [m]. *)
Definition wrapped (eventType : string) (descriptor : value) (m : nat)
  : value :=
  VObj (3 + m)
    [("type", VStr "object");
     ("properties",
      VObj (1 + m)
        ((discriminant, VObj m [("const", VStr eventType)])
         :: filter (fun p => negb (String.eqb (fst p) discriminant))
              (spread (payload descriptor))));
     ("required", VArr (2 + m) [VStr discriminant]);
     ("additionalProperties", VBool false)].

(** The schemas of a list of event entries, wrapped one after the other
    from stamp [m] on. *)
Fixpoint wrap_all (es : list (string * value)) (m : nat)
  : list (string * value) :=
  match es with
  | [] => []
  | p :: es' => (fst p, wrapped (fst p) (snd p) m) :: wrap_all es' (4 + m)
  end.

(** Modelled from the spec: [createEventSchemas] of ./utils, absent from
    the sources. Design document, 2 and 4.1: wraps each named event
    descriptor into a full event-object schema, one per event name. *)
Definition createEventSchemas (events : value) : M value :=
  match enumerable_entries events with
  | Returns es =>
      schemas <- mapM (fun p => s <- wrapEvent (fst p) (snd p) ;;
                                ret (fst p, s)) es ;;
      new_object schemas
  | Throws e => throw e
  end.

(** Modelled from the spec: the kinds of a field descriptor, design
    document, 3 (string, number, boolean, object, array and the remaining
    JSON Schema kinds). *)
Definition kinds : list string :=
  ["string"; "number"; "boolean"; "object"; "array"; "integer"; "null"].

(** Modelled from the spec: a descriptor declares one of the kinds; no
    check of it exists under src/. *)
Definition has_kind (ps : list (string * value)) : bool :=
  match lookup "type" ps with
  | VStr k => existsb (String.eqb k) kinds
  | _ => false
  end.

(** Modelled from the spec: a valid field descriptor, design document, 3:
    a type declaration with a kind and, under [properties], nested
    descriptors. Nothing under src/ defines or checks this. *)
Fixpoint valid_descriptor (v : value) : bool :=
  match v with
  | VObj _ ps =>
      has_kind ps &&
      (fix props_ok (qs : list (string * value)) : bool :=
         match qs with
         | [] => true
         | (k, x) :: qs' =>
             (if String.eqb k "properties" then
                match x with
                | VObj _ fields =>
                    (fix all_ok (fs : list (string * value)) : bool :=
                       match fs with
                       | [] => true
                       | (_, d) :: fs' => valid_descriptor d && all_ok fs'
                       end) fields
                | _ => false
                end
              else true) && props_ok qs'
         end) ps
  | _ => false
  end.

End Utils.

(* ================================================================== *)
(** * The schema builder (src/schemas.ts)                              *)
(* ================================================================== *)

Module Schemas.
Import JS.

(** [createSchemas({ context, events })]. The two fields of the argument
    are the two parameters; [createEventSchemas] is the function imported
    from ./utils. The object literal is evaluated left to right:
    [Object.keys(context)] first, then the call on [events], then the
    empty [types] object. *)
Definition createSchemas (createEventSchemas : value -> M value)
    (context events : value) : M value :=
  required <- Object_keys context ;;
  context_schema <- new_object
    [("type", VStr "object");
     ("properties", context);
     ("additionalProperties", VBool false);
     ("required", required)] ;;
  event_schemas <- createEventSchemas events ;;
  types <- new_object [] ;;
  new_object [("context", context_schema);
              ("events", event_schemas);
              ("types", types)].

(** The returned literal, spelled out: the bundle for a context, the names
    [Object.keys] listed, the event schemas, and the stamps taken ([n] when
    the call started, [k] when [createEventSchemas] returned). *)
Definition bundle_of (context : value) (ks : list string) (es : value)
    (n k : nat) : value :=
  VObj (S k)
    [("context",
      VObj (S n)
        [("type", VStr "object");
         ("properties", context);
         ("additionalProperties", VBool false);
         ("required", VArr n (map VStr ks))]);
     ("events", es);
     ("types", VObj k [])].

End Schemas.

(* ================================================================== *)
(** * Sample mappings                                                  *)
(* ================================================================== *)

(** The mappings of the design document's concrete scenario and of
    examples/quiz.ts, as object literals evaluated before the builder is
    called (stamps 0 to 19 are theirs). *)
Module Scenario.
Import JS.

Definition number_field : value := VObj 0 [("type", VStr "number")].
Definition string_field : value := VObj 1 [("type", VStr "string")].

(** [{ score: { type: "number" } }] *)
Definition score_context : value := VObj 2 [("score", number_field)].

(** [{ submit: { type: "object", properties: {} } }] *)
Definition submit_events : value :=
  VObj 5 [("submit",
           VObj 4 [("type", VStr "object"); ("properties", VObj 3 [])])].

(** [{ answer: { type: "object", properties: { text: { type: "string" } } } }] *)
Definition answer_events : value :=
  VObj 8 [("answer",
           VObj 7 [("type", VStr "object");
                   ("properties", VObj 6 [("text", string_field)])])].

(** [{ b: { type: "string" }, 0: { type: "number" } }] *)
Definition indexed_context : value :=
  VObj 9 [("b", string_field); ("0", number_field)].

(** [{ score: 42 }]: the value is no field descriptor. *)
Definition malformed_context : value := VObj 9 [("score", VNum 42)].

(** The context examples/quiz.ts passes (lines 85 to 113), itself written
    as an object schema: [{ type: "object", properties: { score: ..., ... } }].
    Read as a field mapping, its field [type] holds a string. *)
Definition quiz_context : value :=
  VObj 19
    [("type", VStr "object");
     ("properties",
      VObj 18
        [("score", VObj 10 [("type", VStr "number")]);
         ("currentTopic", VObj 11 [("type", VStr "string")]);
         ("currentQuestion", VObj 12 [("type", VStr "string")]);
         ("currentAnswer", VObj 13 [("type", VStr "string")]);
         ("answerResponse", VObj 14 [("type", VStr "string")]);
         ("difficultyLevel", VObj 15 [("type", VStr "number")]);
         ("numberOfQuestions", VObj 16 [("type", VStr "number")]);
         ("questionNumber", VObj 17 [("type", VStr "number")])])].

(** [{ submit: { type: "object", properties: { type: { type: "string" } } } }] *)
Definition clashing_events : value :=
  VObj 8 [("submit",
           VObj 7 [("type", VStr "object");
                   ("properties", VObj 6 [("type", string_field)])])].

(** The first stamp free when the builder is called. *)
Definition start : nat := 20.

End Scenario.

(* ================================================================== *)
(** * The actor adapter (src/types.ts and its implementation)          *)
(* ================================================================== *)

(** src/types.ts declares the adapter's interface: a [model] and the four
    actor constructors with their parameter and result types. The
    implementation behind it is not among the sources, so the constructors
    are modelled from the design document, 4.2 and 6. *)
Module Adapter.

Section Model.

(** The data of the completion API and of the state-machine runtime that
    the adapter only passes along. *)
Context {Input Chunk Cause Args Output Event : Type}.

(** Modelled from the spec: a chat message, a type of the completion API
    that is not declared under src/; the design document speaks of its
    text only. *)
Record Message : Type := { content : string }.

(** Modelled from the spec: one entry of the function-calling descriptor
    list (design document, 2), a type of the completion API. *)
Record FunctionDescriptor : Type :=
  { fn_name : string; fn_description : string; fn_parameters : JS.value }.

(** Modelled from the spec: a structured chat request
    (ChatCompletionCreateParams, imported from the completion API). *)
Record ChatRequest : Type :=
  { req_model : string;
    req_messages : list Message;
    req_functions : list FunctionDescriptor }.

(** What an [inputFn] returns: [string | ChatCompletionCreateParams]. *)
Inductive Prompt : Type :=
| Text (s : string)
| Params (r : ChatRequest).

(** Modelled from the spec: the tool-call payload of a choice, a type of
    the completion API. *)
Record ToolCall : Type := { call_name : string; call_arguments : string }.

(** Modelled from the spec: a choice of the completion API carries a
    message and/or a tool-call payload (design document, 6). *)
Record Choice : Type :=
  { message : option string; tool_call : option ToolCall }.

(** Modelled from the spec: a completion result with an ordered list of
    choices (design document, 6). *)
Record Completion : Type := { choices : list Choice }.

(** Modelled from the spec: what arrives on the transport's streaming
    channel, which is not declared under src/ (design document, 4.2):
    chunks, end-of-stream, or a transport error. *)
Inductive Signal : Type :=
| Arrives (c : Chunk)
| EndOfStream
| Breaks (cause : Cause).

(** Modelled from the spec: the completion transport, used through its
    contract only (design document, 6): a request operation that returns a
    result or fails with a cause, and a streaming variant. *)
Record Transport : Type :=
  { complete : ChatRequest -> Completion + Cause;
    open_stream : ChatRequest -> list Signal }.

(** The adapter holds the model identifier ([model] in src/types.ts) and
    the transport handle. *)
Record StatelyAgentAdapter : Type :=
  { model : string; transport : Transport }.

Definition createAdapter (m : string) (t : Transport) : StatelyAgentAdapter :=
  {| model := m; transport := t |}.

(** Modelled from the spec: the adapter's errors, none of which is
    declared under src/; the taxonomy of the design document, 7. *)
Inductive AdapterError : Type :=
| CompletionRequestError (cause : Cause)
| StreamError (cause : Cause)
| EventMappingError
| InvalidToolInputError
| UnknownToolError.

(** Modelled from the spec: what an actor does to the outside while it
    runs, in place of the missing implementation's calls: requests to the
    transport, invocations of nested logic, dispatches to the parent. *)
Inductive Effect : Type :=
| Request (r : ChatRequest)
| OpenStream (r : ChatRequest)
| Invoke (tool : string) (args : Args)
| Dispatch (e : Event).

(** Modelled from the spec: one run of a promise-shaped unit (design
    document, 6), in place of the runtime's promise logic: the effects it
    performed, in order, and then how it settled (resolved with a value or
    rejected). *)
Definition Run (A : Type) : Type := list Effect * (A + AdapterError).

Definition resolve {A} (a : A) : Run A := ([], inl a).
Definition reject {A} (e : AdapterError) : Run A := ([], inr e).
Definition perform (eff : Effect) : Run unit := ([eff], inl tt).

Definition andThen {A B} (r : Run A) (k : A -> Run B) : Run B :=
  match r with
  | (t, inl a) => let (t', s) := k a in (t ++ t', s)
  | (t, inr e) => (t, inr e)
  end.

(** [options?: { execute?: boolean }], with [@default true]. *)
Record Options : Type := { execute : option bool }.

Definition shouldExecute (options : option Options) : bool :=
  match options with
  | Some {| execute := Some b |} => b
  | _ => true
  end.

(** The nested actor logic of a tool ([src: AnyActorLogic]): invocable as
    a one-shot unit, or some other kind of logic. *)
Inductive ActorLogic : Type :=
| OneShot (run : Args -> Output)
| OtherLogic.

(** A tool of the registry, as in src/types.ts. *)
Record Tool : Type :=
  { description : string; src : ActorLogic; inputSchema : JS.value }.

(** Modelled from the spec: one emission of a stream-shaped unit (design
    document, 6), in place of the runtime's observable logic. *)
Inductive Emission : Type :=
| Next (c : Chunk)
| Complete
| Error (e : AdapterError).

Notation "x <- r ;; k" := (andThen r (fun x => k))
  (at level 100, r at next level, right associativity).

(** Modelled from the spec: the request an actor issues for what its
    [inputFn] returned, missing with the adapter's implementation. Design
    document, 4.2: a string is wrapped as a single-message chat request
    using the adapter's model; a structured request is used as given. *)
Definition toRequest (a : StatelyAgentAdapter) (p : Prompt) : ChatRequest :=
  match p with
  | Text s =>
      {| req_model := model a;
         req_messages := [{| content := s |}];
         req_functions := [] |}
  | Params r => r
  end.

(** Modelled from the spec: issuing one request via the transport, missing
    with the adapter's implementation. Design document, 4.2: on transport
    failure the unit fails with CompletionRequestError carrying the
    underlying cause. *)
Definition requestCompletion (a : StatelyAgentAdapter) (r : ChatRequest)
  : Run Completion :=
  _ <- perform (Request r) ;;
  match complete (transport a) r with
  | inl c => resolve c
  | inr cause => reject (CompletionRequestError cause)
  end.

(** Modelled from the spec: [fromChat], declared in src/types.ts, whose
    body is missing. Design document, 4.2: evaluates [inputFn] on the
    input, issues the request via the transport, and resolves with the
    full completion result. *)
Definition fromChat (a : StatelyAgentAdapter) (inputFn : Input -> Prompt)
    (input : Input) : Run Completion :=
  requestCompletion a (toRequest a (inputFn input)).

(** Modelled from the spec: the one-to-one mapping of choices into event
    objects, missing with the adapter's implementation; [toEvent] is the
    reading of one choice, which has no result on a malformed payload.
    Design document, 4.2: fails with EventMappingError if a choice cannot
    be mapped to a well-formed event. *)
Fixpoint mapChoices (toEvent : Choice -> option Event) (cs : list Choice)
  : Run (list Event) :=
  match cs with
  | [] => resolve []
  | c :: cs' =>
      match toEvent c with
      | Some e => es <- mapChoices toEvent cs' ;; resolve (e :: es)
      | None => reject EventMappingError
      end
  end.

(** Modelled from the spec: handing the produced events to the parent
    execution context, missing with the adapter's implementation. Design
    document, 4.2 and 5: each produced event is dispatched in the order
    the completion listed the choices. *)
Fixpoint dispatchAll (events : list Event) : Run unit :=
  match events with
  | [] => resolve tt
  | e :: es => _ <- perform (Dispatch e) ;; dispatchAll es
  end.

(** Modelled from the spec: the value a choice actor resolves with, missing
    with the adapter's implementation. Design document, 4.2: the produced
    event list, or an undefined result if no choices were returned. *)
Definition produced {A} (returned : list A) (events : list Event)
  : option (list Event) :=
  match returned with
  | [] => None
  | _ => Some events
  end.

(** Modelled from the spec: [fromEventChoice], declared in src/types.ts,
    whose body is missing. Design document, 4.2: requests a completion,
    maps its choices into events, dispatches them to the parent before
    resolving unless [execute] is false, and resolves with the list. *)
Definition fromEventChoice (a : StatelyAgentAdapter)
    (toEvent : Choice -> option Event) (inputFn : Input -> Prompt)
    (options : option Options) (input : Input)
  : Run (option (list Event)) :=
  completion <- requestCompletion a (toRequest a (inputFn input)) ;;
  events <- mapChoices toEvent (choices completion) ;;
  _ <- (if shouldExecute options then dispatchAll events else resolve tt) ;;
  resolve (produced (choices completion) events).

(** Modelled from the spec: the function-calling descriptor list built
    from the tools, missing with the adapter's implementation. Design
    document, 2 and 4.2: name, description and input schema per tool. *)
Definition descriptors (tools : list (string * Tool))
  : list FunctionDescriptor :=
  map (fun t => {| fn_name := fst t;
                   fn_description := description (snd t);
                   fn_parameters := inputSchema (snd t) |}) tools.

(** Modelled from the spec: the request augmented with the descriptor
    list, missing with the adapter's implementation (design document,
    4.2). *)
Definition augment (r : ChatRequest) (tools : list (string * Tool))
  : ChatRequest :=
  {| req_model := req_model r;
     req_messages := req_messages r;
     req_functions := descriptors tools |}.

(** Modelled from the spec: the tool calls a completion selected, in the
    order of its choices; missing with the adapter's implementation. *)
Definition toolCalls (c : Completion) : list ToolCall :=
  flat_map (fun ch => match tool_call ch with
                      | Some t => [t]
                      | None => []
                      end) (choices c).

(** Modelled from the spec: the lookup table for dispatch (design
    document, 2), missing with the adapter's implementation: the registry,
    by name. *)
Definition findTool (tools : list (string * Tool)) (name : string)
  : option Tool :=
  option_map snd (find (fun t => String.eqb (fst t) name) tools).

(** Modelled from the spec: matching the selected tool calls against the
    registry, missing with the adapter's implementation. Design document,
    4.2: the calls are matched against the registry by name; unmatched
    tool names fail the call with UnknownToolError. *)
Fixpoint matchCalls (tools : list (string * Tool)) (calls : list ToolCall)
  : Run (list (ToolCall * Tool)) :=
  match calls with
  | [] => resolve []
  | c :: cs =>
      match findTool tools (call_name c) with
      | Some t => ms <- matchCalls tools cs ;; resolve ((c, t) :: ms)
      | None => reject UnknownToolError
      end
  end.

(** Modelled from the spec: what is done for each match, missing with the
    adapter's implementation; [parseArgs] parses the call arguments and
    validates them against the input schema, [toolEvent] makes the event.
    Design document, 4.2: a nested logic invocable as a one-shot unit is
    invoked with the parsed arguments and its result is incorporated into
    the event; a mismatch fails with InvalidToolInputError. *)
Definition runTool (parseArgs : JS.value -> string -> option Args)
    (toolEvent : string -> Args -> option Output -> Event)
    (m : ToolCall * Tool) : Run Event :=
  let (c, t) := m in
  match parseArgs (inputSchema t) (call_arguments c) with
  | None => reject InvalidToolInputError
  | Some args =>
      match src t with
      | OneShot run =>
          _ <- perform (Invoke (call_name c) args) ;;
          resolve (toolEvent (call_name c) args (Some (run args)))
      | OtherLogic => resolve (toolEvent (call_name c) args None)
      end
  end.

(** Modelled from the spec: the matches are run in the order of the
    tool calls; missing with the adapter's implementation. *)
Fixpoint runTools (parseArgs : JS.value -> string -> option Args)
    (toolEvent : string -> Args -> option Output -> Event)
    (ms : list (ToolCall * Tool)) : Run (list Event) :=
  match ms with
  | [] => resolve []
  | m :: ms' =>
      e <- runTool parseArgs toolEvent m ;;
      es <- runTools parseArgs toolEvent ms' ;;
      resolve (e :: es)
  end.

(** Modelled from the spec: [fromToolChoice], declared in src/types.ts,
    whose body is missing. Design document, 4.2: like [fromEventChoice],
    with the request augmented by the tools' descriptors and the selected
    tool calls matched against the registry. *)
Definition fromToolChoice (a : StatelyAgentAdapter)
    (parseArgs : JS.value -> string -> option Args)
    (toolEvent : string -> Args -> option Output -> Event)
    (inputFn : Input -> Prompt) (tools : list (string * Tool))
    (options : option Options) (input : Input)
  : Run (option (list Event)) :=
  completion <-
    requestCompletion a (augment (toRequest a (inputFn input)) tools) ;;
  matches <- matchCalls tools (toolCalls completion) ;;
  events <- runTools parseArgs toolEvent matches ;;
  _ <- (if shouldExecute options then dispatchAll events else resolve tt) ;;
  resolve (produced (toolCalls completion) events).

(** Modelled from the spec: what a streaming unit emits for what arrives,
    missing with the adapter's implementation. Design document, 4.2:
    chunks are emitted in arrival order; the sequence completes at
    end-of-stream; a transport error terminates it with StreamError and
    no further chunks are emitted. *)
Fixpoint relay (signals : list Signal) : list Emission :=
  match signals with
  | [] => []
  | Arrives c :: rest => Next c :: relay rest
  | EndOfStream :: _ => [Complete]
  | Breaks cause :: _ => [Error (StreamError cause)]
  end.

(** Modelled from the spec: [fromChatStream], declared in src/types.ts,
    whose body is missing. Design document, 4.2: opens a stream for the
    request and produces the sequence of its chunks. *)
Definition fromChatStream (a : StatelyAgentAdapter)
    (inputFn : Input -> Prompt) (input : Input)
  : list Effect * list Emission :=
  let r := toRequest a (inputFn input) in
  ([OpenStream r], relay (open_stream (transport a) r)).

End Model.

End Adapter.

(* ================================================================== *)
(** * Stub transports                                                  *)
(* ================================================================== *)

(** The stubs of the design document's scenarios, 8: a transport that
    answers every request with one fixed completion, a registry with the
    single tool [search], and a completion that selects [lookup]. Inputs,
    chunks, causes, arguments, outputs and events are plain strings. *)
Module Stub.
Import Adapter.

Definition choice (text : string) : Choice :=
  {| message := Some text; tool_call := None |}.

Definition abc : Completion :=
  {| choices := [choice "a"; choice "b"; choice "c"] |}.

Definition lookup_call : Completion :=
  {| choices :=
       [{| message := None;
           tool_call := Some {| call_name := "lookup";
                                call_arguments := "{}" |} |}] |}.

Definition echo (R : Completion) : @Transport string string :=
  {| complete := fun _ => inl R;
     open_stream := fun _ => [Arrives "x"; Arrives "y"; EndOfStream] |}.

Definition failing (cause : string) : @Transport string string :=
  {| complete := fun _ => inr cause;
     open_stream := fun _ => [Arrives "x"; Breaks cause; Arrives "y"] |}.

Definition prompt (input : string) : Prompt := Text input.

(** A choice's message is read as the event of that name. *)
Definition toEvent (c : Choice) : option string := message c.

Definition registry : list (string * @Tool string string) :=
  [("search",
    {| description := "searches";
       src := OneShot (fun args => args);
       inputSchema := JS.VObj 0 [("type", JS.VStr "object")] |})].

Definition parseArgs (schema : JS.value) (arguments : string)
  : option string := Some arguments.

Definition toolEvent (name args : string) (result : option string)
  : string := name.

(** The adapter of examples/quiz.ts over a stub transport. *)
Definition gpt (t : @Transport string string) : StatelyAgentAdapter :=
  createAdapter "gpt-3.5-turbo-1106" t.

(** The request that wraps the prompt "hello" for that adapter. *)
Definition hello : ChatRequest :=
  {| req_model := "gpt-3.5-turbo-1106";
     req_messages := [{| content := "hello" |}];
     req_functions := [] |}.

End Stub.

(* ================================================================== *)
(** * The quiz example (examples/quiz.ts)                              *)
(* ================================================================== *)

From Stdlib Require QArith.

(** The quiz game that examples/quiz.ts builds on [createSchemas] and
    [fromChat]: its level table, its prompts, the actions of its machine
    and the machine's transitions. Strings are ASCII texts; [score],
    [difficultyLevel] and [questionNumber] only ever hold integers. *)
Module Quiz.
Import JS.

Local Open Scope Z_scope.

Definition line_feed : ascii := "010"%char.
Definition carriage_return : ascii := "013"%char.

(** [s.split(sep)] for a separator of one character. *)
Fixpoint split (sep : ascii) (s : string) : list string :=
  match s with
  | EmptyString => [EmptyString]
  | String c rest =>
      if Ascii.eqb c sep then EmptyString :: split sep rest
      else match split sep rest with
           | piece :: pieces => String c piece :: pieces
           | [] => [String c EmptyString]
           end
  end.

(** The nine lines of the template literal (lines 52 to 60). *)
Definition level_lines : list string :=
  [("Novice: For beginners, covering the most basic questions "
     ++ "that require minimal subject knowledge.")%string;
   ("Easy: Slightly more challenging than Novice, with "
     ++ "straightforward questions that might require some basic "
     ++ "understanding.")%string;
   ("Intermediate: Questions at this level require a moderate "
     ++ "understanding of the subject and some analytical skills.")%string;
   ("Challenging: A step up from Intermediate, these questions "
     ++ "demand a good grasp of the subject and the ability to apply "
     ++ "concepts.")%string;
   ("Advanced: For users with a strong understanding of the "
     ++ "subject, requiring in-depth knowledge and analytical skills.")%string;
   ("Expert: Questions that challenge even those with advanced "
     ++ "knowledge, requiring detailed understanding and critical "
     ++ "thinking.")%string;
   ("Master: Beyond Expert, these questions require mastery over "
     ++ "the subject, including the nuances and less common "
     ++ "knowledge.")%string;
   ("Genius: Exceptionally difficult questions that test limits, "
     ++ "including obscure knowledge and complex problem-solving "
     ++ "skills.")%string;
   ("Legend: The pinnacle of difficulty, designed to challenge "
     ++ "the most knowledgeable and skilled individuals, often "
     ++ "requiring extraordinary insight or a creative approach to "
     ++ "solve.")%string].

(** The template literal of lines 51 to 61: it opens with a line break and
    every line ends with one. *)
Definition levels_text : string :=
  String line_feed
    (String.concat EmptyString
       (map (fun l => (l ++ String line_feed EmptyString)%string)
            level_lines)).

(** [const levels = `...`.split("\n")] *)
Definition levels : list string := split line_feed levels_text.

(** [xs[i]] for a number [i]: undefined outside the array. *)
Definition at_index {A} (xs : list A) (i : Z) : option A :=
  if i <? 0 then None else nth_error xs (Z.to_nat i).

(** The characters [.] does not match. *)
Definition is_line_terminator (c : ascii) : bool :=
  Ascii.eqb c line_feed || Ascii.eqb c carriage_return.

(** What is left after a match of [.*] that starts at [s]. *)
Fixpoint after_line (s : string) : string :=
  match s with
  | EmptyString => EmptyString
  | String c rest => if is_line_terminator c then s else after_line rest
  end.

(** [s.replace(/:.*/, "")]: the first colon goes, with the rest of its
    line. *)
Fixpoint replace_colon_rest (s : string) : string :=
  match s with
  | EmptyString => EmptyString
  | String c rest =>
      if Ascii.eqb c ":"%char then after_line rest
      else String c (replace_colon_rest rest)
  end.

(** [difficultyRating] (lines 70 to 72) at a whole level, which is what
    the machine's context holds; [.replace] on undefined throws. *)
Definition difficultyRating (difficultyLevel : Z) : outcome string :=
  match at_index levels (difficultyLevel - 1) with
  | Some level => Returns (replace_colon_rest level)
  | None => Throws TypeError
  end.

(** A value inside a template literal. *)
Definition interpolate (x : option string) : string :=
  match x with
  | Some s => s
  | None => "undefined"%string
  end.

(** The [inputFn] of [fetchQuestion] (lines 63 to 68). *)
Definition fetchQuestionInput (topic : string) (difficultyLevel : Z)
  : string :=
  ("Ask me an objective short answer question about " ++ topic
   ++ ". The level of difficulty is "
   ++ interpolate (at_index levels (difficultyLevel - 1))
   ++ ". Just return the question")%string.

(** Whether a character occurs in a string. *)
Fixpoint occurs (c : ascii) (s : string) : bool :=
  match s with
  | EmptyString => false
  | String c' rest => Ascii.eqb c' c || occurs c rest
  end.

(** A number as [Number(...)] may return it; the machine only ever
    compares it with an integer. *)
Inductive number : Type :=
| NaN
| NegInfinity
| Finite (q : QArith_base.Q)
| PosInfinity.

(** [i >= n] for an integer [i]. *)
Definition ge (i : Z) (n : number) : bool :=
  match n with
  | NaN => false
  | NegInfinity => true
  | Finite q => QArith_base.Qle_bool q (QArith_base.inject_Z i)
  | PosInfinity => false
  end.

(** The whole number a number is, if it is one; a fraction, NaN and the
    infinities name no element of an array. *)
Definition whole (n : number) : option Z :=
  match n with
  | Finite q =>
      if QArith_base.Qnum q mod Z.pos (QArith_base.Qden q) =? 0
      then Some (QArith_base.Qnum q / Z.pos (QArith_base.Qden q))
      else None
  | _ => None
  end.

(** [n] is the whole number [d]. *)
Definition denotes (n : number) (d : Z) : Prop :=
  match n with
  | Finite q => QArith_base.Qeq q (QArith_base.inject_Z d)
  | _ => False
  end.

(** [difficultyRating] (lines 70 to 72) on any number: when
    [difficultyLevel] is not whole, neither is [difficultyLevel - 1], so
    [levels[difficultyLevel - 1]] is undefined and [.replace] throws; on a
    whole number it is [difficultyRating] above. *)
Definition difficultyRatingOf (difficultyLevel : number) : outcome string :=
  match whole difficultyLevel with
  | Some d => difficultyRating d
  | None => Throws TypeError
  end.

(** The machine's context (lines 148 to 157). *)
Record context : Type := mkContext
  { score : Z;
    currentTopic : string;
    currentQuestion : string;
    difficultyLevel : Z;
    numberOfQuestions : number;
    questionNumber : Z;
    answerResponse : string;
    currentAnswer : string }.

Definition initialContext : context :=
  {| score := 0;
     currentTopic := "";
     currentQuestion := "";
     difficultyLevel := 3;
     numberOfQuestions := Finite (QArith_base.inject_Z 10);
     questionNumber := 1;
     answerResponse := "";
     currentAnswer := "" |}.

(** The [enqueueActions] of "Checking answer" (lines 283 to 294). *)
Definition grade (c : context) : context :=
  if String.prefix "Yes" (answerResponse c) then
    {| score := score c + difficultyLevel c * 10;
       currentTopic := currentTopic c;
       currentQuestion := currentQuestion c;
       difficultyLevel := Z.min (difficultyLevel c + 1) 10;
       numberOfQuestions := numberOfQuestions c;
       questionNumber := questionNumber c;
       answerResponse := answerResponse c;
       currentAnswer := currentAnswer c |}
  else
    {| score := score c;
       currentTopic := currentTopic c;
       currentQuestion := currentQuestion c;
       difficultyLevel := Z.max (difficultyLevel c - 1) 1;
       numberOfQuestions := numberOfQuestions c;
       questionNumber := questionNumber c;
       answerResponse := answerResponse c;
       currentAnswer := currentAnswer c |}.

(** The [assign] of "next question" (lines 337 to 342). *)
Definition nextQuestion (c : context) : context :=
  {| score := score c;
     currentTopic := currentTopic c;
     currentQuestion := "";
     difficultyLevel := difficultyLevel c;
     numberOfQuestions := numberOfQuestions c;
     questionNumber := questionNumber c + 1;
     answerResponse := "";
     currentAnswer := "" |}.

(** The test of the entry action of "Waiting for next question" (line
    318). *)
Definition lastQuestion (c : context) : bool :=
  ge (questionNumber c) (numberOfQuestions c).

(** The atomic states of the machine ("Setup" holds "Get topic" and
    "Questions"; its final state "Done" is left at once for "Fetching
    question"). *)
Inductive state : Type :=
| Get_topic
| Questions
| Fetching_question
| Awaiting_answer
| Failure
| Checking_answer
| Waiting_for_next_question
| Game_over.

(** The events the machine reacts to: the done event of the state's
    [getUserInput] actor with its output, the done event of its
    [fetchQuestion] or [checkAnswer] actor with the content of the first
    choice, the error event of that actor, and the three named events. *)
Inductive event : Type :=
| UserInput (output : string)
| Completion (content : string)
| ActorError
| retry
| end_game
| next_question.

(** Entering "Waiting for next question" (lines 316 to 323): the entry
    action raises "end game" on the last question, and the root takes that
    event to "Game over". *)
Definition enterWaiting (c : context) : state * context :=
  if lastQuestion c then (Game_over, c)
  else (Waiting_for_next_question, c).

(** One event (lines 158 to 353). [Number] is the conversion of line 195.
    "Game over" is final; "end game" is handled at the root, so from every
    other state; an event no state handles changes nothing. *)
Definition step (Number : string -> number) (cfg : state * context)
    (e : event) : state * context :=
  let (s, c) := cfg in
  match s, e with
  | Game_over, _ => cfg
  | _, end_game => (Game_over, c)
  | Get_topic, UserInput output =>
      (Questions,
       {| score := score c;
          currentTopic := output;
          currentQuestion := currentQuestion c;
          difficultyLevel := difficultyLevel c;
          numberOfQuestions := numberOfQuestions c;
          questionNumber := questionNumber c;
          answerResponse := answerResponse c;
          currentAnswer := currentAnswer c |})
  | Questions, UserInput output =>
      (Fetching_question,
       {| score := score c;
          currentTopic := currentTopic c;
          currentQuestion := currentQuestion c;
          difficultyLevel := difficultyLevel c;
          numberOfQuestions := Number output;
          questionNumber := questionNumber c;
          answerResponse := answerResponse c;
          currentAnswer := currentAnswer c |})
  | Fetching_question, Completion content =>
      (Awaiting_answer,
       {| score := score c;
          currentTopic := currentTopic c;
          currentQuestion := content;
          difficultyLevel := difficultyLevel c;
          numberOfQuestions := numberOfQuestions c;
          questionNumber := questionNumber c;
          answerResponse := answerResponse c;
          currentAnswer := currentAnswer c |})
  | Fetching_question, ActorError => (Failure, c)
  | Awaiting_answer, UserInput output =>
      (Checking_answer,
       {| score := score c;
          currentTopic := currentTopic c;
          currentQuestion := currentQuestion c;
          difficultyLevel := difficultyLevel c;
          numberOfQuestions := numberOfQuestions c;
          questionNumber := questionNumber c;
          answerResponse := answerResponse c;
          currentAnswer := output |})
  | Failure, retry => (Fetching_question, c)
  | Checking_answer, Completion content =>
      enterWaiting
        (grade
           {| score := score c;
              currentTopic := currentTopic c;
              currentQuestion := currentQuestion c;
              difficultyLevel := difficultyLevel c;
              numberOfQuestions := numberOfQuestions c;
              questionNumber := questionNumber c;
              answerResponse := content;
              currentAnswer := currentAnswer c |})
  | Checking_answer, ActorError => (Failure, c)
  | Waiting_for_next_question, UserInput _ =>
      (Fetching_question, nextQuestion c)
  | Waiting_for_next_question, next_question =>
      (Fetching_question, nextQuestion c)
  | _, _ => cfg
  end.

(** The machine as started by [createAgent(quizMachine).start()]. *)
Definition initial : state * context := (Get_topic, initialContext).

(** The configuration after a sequence of events. *)
Definition run (Number : string -> number) (events : list event)
  : state * context :=
  fold_left (step Number) events initial.

(** The states in which a question is being asked or answered. *)
Definition asking (s : state) : bool :=
  match s with
  | Fetching_question | Awaiting_answer | Failure | Checking_answer => true
  | _ => false
  end.

(** The states in which the current question has been graded. *)
Definition graded (s : state) : bool :=
  match s with
  | Waiting_for_next_question | Game_over => true
  | _ => false
  end.


(** What every reachable configuration satisfies: the level is one of the
    ten, questions are counted from one, and the score is a multiple of
    ten with at most a hundred points per graded question. *)
Definition sound (cfg : state * context) : Prop :=
  let (s, c) := cfg in
  1 <= difficultyLevel c <= 10
  /\ 1 <= questionNumber c
  /\ 0 <= score c
  /\ (10 | score c)
  /\ score c <= 100 * (if graded s then questionNumber c
                       else questionNumber c - 1).

(** How far the machine may have counted: past the first question only
    if the question before was not the last one. *)
Definition paced (cfg : state * context) : Prop :=
  let (s, c) := cfg in
  match s with
  | Get_topic | Questions => questionNumber c = 1
  | Waiting_for_next_question => lastQuestion c = false
  | Game_over => True
  | _ => questionNumber c = 1
         \/ ge (questionNumber c - 1) (numberOfQuestions c) = false
  end.

(** What holds while no "end game" event arrives and the count of
    questions is not a number: the machine is not in "Game over". *)
Definition endless (cfg : state * context) : Prop :=
  let (s, c) := cfg in
  s <> Game_over
  /\ (s <> Get_topic -> s <> Questions -> numberOfQuestions c = NaN).

(** The events of one question that goes well: the question arrives, the
    user answers, the verdict arrives. *)
Definition round (r : string * string * string) : list event :=
  let '(question, answer, verdict) := r in
  [Completion question; UserInput answer; Completion verdict].

(** The events of a game that goes well: the rounds, with the user
    pressing enter between two of them. *)
Fixpoint play (rounds : list (string * string * string)) : list event :=
  match rounds with
  | [] => []
  | [r] => round r
  | r :: rest => round r ++ UserInput "" :: play rest
  end.

(** The context of a first right answer. *)
Definition answered : context :=
  {| score := 0;
     currentTopic := "cats";
     currentQuestion := "How many lives?";
     difficultyLevel := 3;
     numberOfQuestions := Finite (QArith_base.inject_Z 10);
     questionNumber := 1;
     answerResponse := "Yes, nine.";
     currentAnswer := "nine" |}.

(** A game whose count of questions was typed as a word. *)
Definition wordy : list event :=
  [UserInput "cats"; UserInput "many"; Completion "How many lives?";
   UserInput "nine"; Completion "Yes, nine."; next_question;
   Completion "What sound?"; UserInput "woof"; Completion "No, meow."].

(** The two rounds of a game of two questions. *)
Definition two_rounds : list (string * string * string) :=
  [("How many lives?", "nine", "Yes, nine.");
   ("What sound?", "woof", "No, meow.")].

(** A conversion that reads every text as 2. *)
Definition always_two (text : string) : number :=
  Finite (QArith_base.inject_Z 2).

End Quiz.

(* ================================================================== *)
(** * Facts about property keys                                        *)
(* ================================================================== *)

Section OwnKeys.
Import JS.

Lemma insert_index_perm (k : string) (ks : list string) :
  Permutation (insert_index k ks) (k :: ks).
Proof.
  induction ks as [|k' ks IH]; simpl.
  - apply Permutation_refl.
  - destruct (index_value k <=? index_value k')%N.
    + apply Permutation_refl.
    + eapply perm_trans; [apply perm_skip, IH | apply perm_swap].
Qed.

Lemma sort_indices_perm (ks : list string) :
  Permutation (sort_indices ks) ks.
Proof.
  induction ks as [|k ks IH]; simpl.
  - constructor.
  - eapply perm_trans; [apply insert_index_perm | now apply perm_skip].
Qed.

Lemma insert_index_sorted (k : string) (ks : list string) :
  Sorted index_le ks -> Sorted index_le (insert_index k ks).
Proof.
  induction ks as [|k' ks IH]; simpl; intros Hs.
  - repeat constructor.
  - destruct (N.leb_spec (index_value k) (index_value k')) as [Hle|Hlt].
    + constructor; [assumption | constructor; exact Hle].
    + inversion Hs as [|? ? Hs' Hhd]; subst.
      constructor; [now apply IH |].
      assert (Hk : index_le k' k) by (unfold index_le; lia).
      destruct ks as [|k'' ks]; simpl.
      * constructor; exact Hk.
      * destruct (index_value k <=? index_value k'')%N.
        -- constructor; exact Hk.
        -- inversion Hhd; subst. constructor; assumption.
Qed.

Lemma sort_indices_sorted (ks : list string) :
  Sorted index_le (sort_indices ks).
Proof.
  induction ks as [|k ks IH]; simpl.
  - constructor.
  - now apply insert_index_sorted.
Qed.

Lemma filter_split_perm {A} (f : A -> bool) (l : list A) :
  Permutation (filter f l ++ filter (fun a => negb (f a)) l) l.
Proof.
  induction l as [|a l IH]; simpl.
  - constructor.
  - destruct (f a); simpl.
    + now apply perm_skip.
    + apply Permutation_sym, Permutation_cons_app, Permutation_sym, IH.
Qed.

Lemma own_property_keys_perm (ks : list string) :
  Permutation (own_property_keys ks) ks.
Proof.
  unfold own_property_keys.
  eapply perm_trans; [| apply (filter_split_perm is_array_index)].
  apply Permutation_app_tail, sort_indices_perm.
Qed.

Lemma own_property_keys_In (ks : list string) (k : string) :
  In k (own_property_keys ks) <-> In k ks.
Proof.
  split; apply Permutation_in;
    [| apply Permutation_sym]; apply own_property_keys_perm.
Qed.

Lemma own_property_keys_NoDup (ks : list string) :
  NoDup ks -> NoDup (own_property_keys ks).
Proof.
  apply Permutation_NoDup, Permutation_sym, own_property_keys_perm.
Qed.

Lemma filter_none {A} (f : A -> bool) (l : list A) :
  forallb (fun a => negb (f a)) l = true -> filter f l = [].
Proof.
  induction l as [|a l IH]; simpl; [reflexivity |].
  intros H. apply andb_prop in H as [Ha Hl].
  destruct (f a); [discriminate | now apply IH].
Qed.

(** Without array indices among them, the keys come out as declared. *)
Lemma own_property_keys_plain (ks : list string) :
  forallb (fun k => negb (is_array_index k)) ks = true ->
  own_property_keys ks = ks.
Proof.
  intros H. unfold own_property_keys.
  rewrite (filter_none _ _ H). simpl.
  now apply forallb_filter_id.
Qed.

End OwnKeys.

(* ================================================================== *)
(** * The schema builder: what a call returns                          *)
(* ================================================================== *)

Section Builder.
Import JS Schemas.

(** Whatever [createEventSchemas] stands for. *)
Variable ces : value -> M value.

(** One call, step by step: the only ways out are the TypeError of
    [Object.keys] and whatever [createEventSchemas] throws. *)
Lemma createSchemas_run (context events : value) (n : nat) :
  createSchemas ces context events n =
  match enumerable_keys context with
  | Throws e => Throws e
  | Returns ks =>
      match ces events (S (S n)) with
      | Returns (es, k) =>
          Returns (bundle_of context ks es n k, S (S k))
      | Throws e => Throws e
      end
  end.
Proof.
  unfold createSchemas, Object_keys, bind.
  destruct (enumerable_keys context) as [ks|e]; simpl; [| reflexivity].
  destruct (ces events (S (S n))) as [[es k]|e]; reflexivity.
Qed.

Lemma enumerable_keys_object (context : value) :
  nullish context = false ->
  enumerable_keys context =
  Returns (own_property_keys (declared_keys context)).
Proof.
  intros H. unfold enumerable_keys. now rewrite H.
Qed.

Lemma enumerable_keys_nullish (context : value) :
  nullish context = true -> enumerable_keys context = Throws TypeError.
Proof.
  intros H. unfold enumerable_keys. now rewrite H.
Qed.

(** C1 (amended): for every context field mapping and any event mapping,
    the call goes on to [createEventSchemas] and, when that returns, the
    bundle's context schema is exactly the object schema with type
    "object", the mapping itself as properties, additionalProperties false
    and required R, where R is what [Object.keys] lists: every declared name
    once and no other, the names that are array indices first in ascending
    order, then all other names in declaration order; R is the declaration
    order itself when no name is an array index. *)
Theorem createSchemas_context_schema
    (id : nat) (fields : list (string * value)) (events : value) (n : nat) :
  NoDup (map fst fields) ->
  let context := VObj id fields in
  let R := own_property_keys (declared_keys context) in
  createSchemas ces context events n =
    match ces events (S (S n)) with
    | Returns (es, k) => Returns (bundle_of context R es n k, S (S k))
    | Throws e => Throws e
    end
  /\ NoDup R
  /\ (forall k, In k R <-> In k (declared_keys context))
  /\ (exists indices,
        R = indices
            ++ filter (fun k => negb (is_array_index k))
                 (declared_keys context)
        /\ Forall (fun k => is_array_index k = true) indices
        /\ Sorted index_le indices)
  /\ (forallb (fun k => negb (is_array_index k)) (declared_keys context)
      = true -> R = declared_keys context).
Proof.
  intros Hnd context R.
  split; [| split; [| split; [| split]]].
  - rewrite createSchemas_run.
    now rewrite enumerable_keys_object by reflexivity.
  - now apply own_property_keys_NoDup.
  - intros k. apply own_property_keys_In.
  - exists (sort_indices (filter is_array_index (declared_keys context))).
    split; [reflexivity | split].
    + apply Forall_forall. intros k Hk.
      apply (Permutation_in _ (sort_indices_perm _)) in Hk.
      now apply filter_In in Hk.
    + apply sort_indices_sorted.
  - apply own_property_keys_plain.
Qed.

(** C3 (amended): the builder checks no field descriptor and raises no
    InvalidSchemaError of its own. A call fails in two ways only: with the
    TypeError of [Object.keys] when the context mapping is null or
    undefined, and with whatever [createEventSchemas] throws on the event
    mapping. *)
Theorem createSchemas_failures (context events : value) (n : nat) (e : exn) :
  createSchemas ces context events n = Throws e <->
  (nullish context = true /\ e = TypeError)
  \/ (nullish context = false /\ ces events (S (S n)) = Throws e).
Proof.
  rewrite createSchemas_run.
  destruct (nullish context) eqn:Hn.
  - rewrite enumerable_keys_nullish by assumption. split.
    + intros H. left. split; [reflexivity | congruence].
    + intros [[_ ->]|[H _]]; [reflexivity | discriminate].
  - rewrite enumerable_keys_object by assumption. split.
    + intros H. right. split; [reflexivity |].
      destruct (ces events (S (S n))) as [[es k]|e']; congruence.
    + intros [[H _]|[_ ->]]; [discriminate | reflexivity].
Qed.

(** C4 (amended): for every context other than null and undefined, whatever
    its values, and every event mapping on which [createEventSchemas]
    returns, the builder returns a bundle; the bundle is made of the
    context's key names and of the context itself, whose values are not
    looked into. *)
Theorem createSchemas_returns
    (context events es : value) (n k : nat) :
  nullish context = false ->
  ces events (S (S n)) = Returns (es, k) ->
  createSchemas ces context events n =
  Returns (bundle_of context (own_property_keys (declared_keys context))
             es n k, S (S k)).
Proof.
  intros Hn Hes. rewrite createSchemas_run.
  rewrite enumerable_keys_object by assumption.
  now rewrite Hes.
Qed.

(** C5: the types part of every bundle the builder returns is an empty
    object, whatever the context and event mappings are. *)
Theorem createSchemas_types_empty
    (context events bundle : value) (n k : nat) :
  createSchemas ces context events n = Returns (bundle, k) ->
  exists id, get bundle "types" = VObj id []
             /\ deep_equal (get bundle "types") (VObj 0 []).
Proof.
  rewrite createSchemas_run.
  destruct (enumerable_keys context) as [ks|e]; [| discriminate].
  destruct (ces events (S (S n))) as [[es k']|e]; [| discriminate].
  intros H. injection H as <- <-.
  exists k'. split; reflexivity.
Qed.

(** Two calls with the same mappings end the same way, whatever stamps
    are free, as soon as the imported function is itself indifferent to
    them. *)
Lemma createSchemas_same_outcome (context events : value) (n m : nat) :
  stamp_blind ces ->
  same_outcome (createSchemas ces context events n)
               (createSchemas ces context events m).
Proof.
  intros Hces. rewrite !createSchemas_run.
  destruct (enumerable_keys context) as [ks|e]; [| reflexivity].
  specialize (Hces events (S (S n)) (S (S m))).
  destruct (ces events (S (S n))) as [[es k]|e],
           (ces events (S (S m))) as [[es' k']|e']; simpl in *;
    try assumption.
  unfold deep_equal in *. simpl. now rewrite Hces.
Qed.

End Builder.

(* ================================================================== *)
(** * Event schemas: one closed, tagged schema per event               *)
(* ================================================================== *)

Section EventSchemas.
Import JS Utils.

Lemma wrapEvent_run (e : string) (d : value) (m : nat) :
  wrapEvent e d m = Returns (wrapped e d m, 4 + m).
Proof. reflexivity. Qed.

Lemma wrap_all_run (es : list (string * value)) (m : nat) :
  mapM (fun p => s <- wrapEvent (fst p) (snd p) ;; ret (fst p, s)) es m =
  Returns (wrap_all es m, 4 * List.length es + m).
Proof.
  revert m. induction es as [|p es IH]; intros m.
  - reflexivity.
  - cbn [mapM]. unfold bind at 1. unfold bind at 1.
    rewrite wrapEvent_run. unfold ret at 1. unfold bind at 1.
    rewrite IH. unfold ret. f_equal. f_equal. cbn [List.length]. lia.
Qed.

Lemma createEventSchemas_run (events : value) (m : nat) :
  nullish events = false ->
  let es := map (fun k => (k, get events k))
                (own_property_keys (declared_keys events)) in
  createEventSchemas events m =
  Returns (VObj (4 * List.length es + m) (wrap_all es m),
           S (4 * List.length es + m)).
Proof.
  intros Hn es. unfold createEventSchemas, enumerable_entries.
  rewrite enumerable_keys_object by assumption.
  fold es. unfold bind at 1. rewrite wrap_all_run. reflexivity.
Qed.

Lemma lookup_tabulate (g : string -> value) (ks : list string) (k : string) :
  In k ks -> lookup k (map (fun k' => (k', g k')) ks) = g k.
Proof.
  unfold lookup. induction ks as [|k0 ks IH]; simpl; [contradiction |].
  intros Hin. destruct (String.eqb_spec k0 k) as [->|Hne].
  - reflexivity.
  - destruct Hin as [->|Hin]; [contradiction | now apply IH].
Qed.

Lemma lookup_filter_other (skip k : string) (ps : list (string * value)) :
  k <> skip ->
  lookup k (filter (fun p => negb (String.eqb (fst p) skip)) ps)
  = lookup k ps.
Proof.
  intros Hne. unfold lookup.
  induction ps as [|[k0 v0] ps IH]; simpl; [reflexivity |].
  destruct (String.eqb_spec k0 skip) as [->|Hk0]; simpl.
  - destruct (String.eqb_spec skip k) as [<-|_]; [contradiction | exact IH].
  - destruct (String.eqb k0 k); [reflexivity | exact IH].
Qed.

Lemma lookup_wrap_all (es : list (string * value)) (e : string) (m : nat) :
  In e (map fst es) ->
  exists j, lookup e (wrap_all es m) = wrapped e (lookup e es) j.
Proof.
  revert m. induction es as [|[k0 d0] es IH]; intros m; simpl;
    [contradiction |].
  intros Hin. unfold lookup. simpl.
  destruct (String.eqb_spec k0 e) as [->|Hne].
  - now exists m.
  - destruct Hin as [->|Hin]; [contradiction |].
    apply (IH (4 + m) Hin).
Qed.

Lemma declared_not_nullish (v : value) (k : string) :
  In k (declared_keys v) -> nullish v = false.
Proof. destruct v; simpl; intros H; solve [contradiction | reflexivity]. Qed.

Lemma lookup_spread (v : value) (k : string) :
  In k (declared_keys v) -> lookup k (spread v) = get v k.
Proof.
  intros Hin. unfold spread, enumerable_entries.
  rewrite enumerable_keys_object by (eapply declared_not_nullish; eauto).
  apply lookup_tabulate. now apply own_property_keys_In.
Qed.

(** C2 (amended): for every event mapping and every event name [e] among
    its keys, the schema produced for [e] has additionalProperties false,
    lists [type] as required, fixes the [type] property to the constant
    [e], and carries each declared payload property other than one named
    [type] unchanged. *)
Theorem createEventSchemas_event_schema
    (events : value) (e : string) (n : nat) :
  In e (declared_keys events) ->
  exists schemas k,
    createEventSchemas events n = Returns (schemas, k) /\
    let schema := get schemas e in
    get schema "additionalProperties" = VBool false /\
    In (VStr "type") (elements (get schema "required")) /\
    deep_equal (get (get schema "properties") "type")
               (VObj 0 [("const", VStr e)]) /\
    (forall p, In p (declared_keys (payload (get events e))) ->
       p <> discriminant ->
       get (get schema "properties") p = get (payload (get events e)) p).
Proof.
  intros He.
  pose proof (declared_not_nullish _ _ He) as Hn.
  rewrite (createEventSchemas_run events n Hn).
  set (es := map (fun k => (k, get events k))
                 (own_property_keys (declared_keys events))).
  eexists _, _. split; [reflexivity |].
  assert (Hkey : In e (map fst es)).
  { unfold es. rewrite map_map. simpl. rewrite map_id.
    now apply own_property_keys_In. }
  destruct (lookup_wrap_all es e n Hkey) as [j Hj].
  assert (Hd : lookup e es = get events e).
  { unfold es. apply lookup_tabulate. now apply own_property_keys_In. }
  rewrite Hd in Hj.
  change (lookup e (wrap_all es n))
    with (get (VObj (4 * List.length es + n) (wrap_all es n)) e) in Hj.
  cbv zeta. rewrite Hj.
  split; [reflexivity |]. split; [left; reflexivity |].
  split; [reflexivity |].
  intros p Hp Hne.
  change (get (wrapped e (get events e) j) "properties")
    with (VObj (1 + j)
            ((discriminant, VObj j [("const", VStr e)])
             :: filter (fun q => negb (String.eqb (fst q) discriminant))
                  (spread (payload (get events e))))).
  unfold get at 1. cbn [own_entries]. unfold lookup at 1. cbn [find fst].
  destruct (String.eqb_spec discriminant p) as [Heq|_];
    [symmetry in Heq; contradiction |].
  fold (lookup p (filter (fun q => negb (String.eqb (fst q) discriminant))
                    (spread (payload (get events e))))).
  rewrite lookup_filter_other by assumption.
  now apply lookup_spread.
Qed.

End EventSchemas.

(* ================================================================== *)
(** * The builder with its event schemas, on the sample mappings       *)
(* ================================================================== *)

Section BuilderWithEvents.
Import JS Utils Schemas Scenario.

Lemma erase_wrap_all (es : list (string * value)) (m m' : nat) :
  map (fun p => let '(k, x) := p in (k, erase x)) (wrap_all es m) =
  map (fun p => let '(k, x) := p in (k, erase x)) (wrap_all es m').
Proof.
  revert m m'. induction es as [|p es IH]; intros m m'; simpl.
  - reflexivity.
  - f_equal. apply IH.
Qed.

Lemma createEventSchemas_stamp_blind : stamp_blind createEventSchemas.
Proof.
  intros v m m'. destruct (nullish v) eqn:Hn.
  - unfold createEventSchemas, enumerable_entries.
    rewrite enumerable_keys_nullish by assumption. reflexivity.
  - rewrite !createEventSchemas_run by assumption.
    unfold same_outcome, deep_equal. simpl.
    f_equal. apply erase_wrap_all.
Qed.

(** C6: two calls of the builder with the same context and event mappings
    end the same way, and when they return, the two bundles are deep-equal:
    the same structure, whatever allocation stamps each call took (in
    particular for a second call that starts where the first one ended). *)
Theorem createSchemas_idempotent (context events : value) (n m : nat) :
  same_outcome (createSchemas createEventSchemas context events n)
               (createSchemas createEventSchemas context events m).
Proof.
  apply createSchemas_same_outcome, createEventSchemas_stamp_blind.
Qed.

(** On the scenario: the second call starts at the stamp the first call
    left, returns another object, and the two are deep-equal. *)
Lemma createSchemas_twice_scenario :
  exists b1 b2,
    createSchemas createEventSchemas score_context submit_events start
    = Returns (b1, 29)
    /\ createSchemas createEventSchemas score_context submit_events 29
       = Returns (b2, 38)
    /\ b1 <> b2 /\ deep_equal b1 b2.
Proof.
  eexists _, _. split; [reflexivity |]. split; [reflexivity |].
  split; [discriminate | reflexivity].
Qed.

(** The design document's scenario: [{ score: { type: "number" } }] gives
    required ["score"]. *)
Lemma createSchemas_context_schema_witness :
  NoDup (map fst [("score", number_field)]) /\
  createSchemas createEventSchemas score_context submit_events start =
  Returns
    (bundle_of score_context ["score"]
       (VObj 26 [("submit", wrapped "submit" (get submit_events "submit") 22)])
       start 27, 29).
Proof.
  assert (H : NoDup (map fst [("score", number_field)])).
  { repeat constructor. simpl. intros []. }
  split; [exact H |].
  exact (proj1 (createSchemas_context_schema createEventSchemas 2
                  [("score", number_field)] submit_events start H)).
Defined.

(** [{ b: ..., 0: ... }] is declared as b, 0 and comes out with required
    ["0", "b"]. *)
Lemma createSchemas_required_reordered :
  exists bundle k,
    createSchemas createEventSchemas indexed_context submit_events start
    = Returns (bundle, k)
    /\ elements (get (get bundle "context") "required") = [VStr "0"; VStr "b"]
    /\ map VStr (declared_keys indexed_context) = [VStr "b"; VStr "0"]
    /\ elements (get (get bundle "context") "required")
       <> map VStr (declared_keys indexed_context).
Proof.
  eexists _, _. split; [reflexivity |].
  split; [reflexivity |]. split; [reflexivity |]. discriminate.
Qed.

(** Contexts whose values are no field descriptors ([{ score: 42 }] and
    the context of examples/quiz.ts) get a bundle, and a null context
    throws a TypeError: no call ends in InvalidSchemaError. *)
Lemma createSchemas_accepts_malformed :
  valid_descriptor (get malformed_context "score") = false
  /\ (exists bundle k,
        createSchemas createEventSchemas malformed_context submit_events start
        = Returns (bundle, k))
  /\ createSchemas createEventSchemas malformed_context submit_events start
     <> Throws InvalidSchemaError
  /\ valid_descriptor (get quiz_context "type") = false
  /\ (exists bundle k,
        createSchemas createEventSchemas quiz_context submit_events start
        = Returns (bundle, k))
  /\ createSchemas createEventSchemas VNull submit_events start
     = Throws TypeError
  /\ createSchemas createEventSchemas VNull submit_events start
     <> Throws InvalidSchemaError.
Proof.
  split; [reflexivity |]. split; [eexists _, _; reflexivity |].
  split; [discriminate |]. split; [reflexivity |].
  split; [eexists _, _; reflexivity |].
  split; [reflexivity | discriminate].
Qed.

(** On a null context the builder throws instead of returning. *)
Lemma createSchemas_throws_on_null :
  createSchemas createEventSchemas VNull submit_events start
  = Throws TypeError.
Proof. reflexivity. Qed.

(** A context with a malformed value, and the bundle returned for it. *)
Lemma createSchemas_returns_witness :
  nullish malformed_context = false /\
  createEventSchemas submit_events (S (S start)) =
    Returns
      (VObj 26 [("submit", wrapped "submit" (get submit_events "submit") 22)],
       27) /\
  createSchemas createEventSchemas malformed_context submit_events start =
  Returns
    (bundle_of malformed_context ["score"]
       (VObj 26 [("submit", wrapped "submit" (get submit_events "submit") 22)])
       start 27, 29).
Proof.
  split; [reflexivity |]. split; [reflexivity |].
  exact (createSchemas_returns createEventSchemas malformed_context
           submit_events _ start 27 eq_refl eq_refl).
Defined.

(** The types part of the scenario's bundle. *)
Lemma createSchemas_types_empty_witness :
  createSchemas createEventSchemas score_context submit_events start =
  Returns
    (bundle_of score_context ["score"]
       (VObj 26 [("submit", wrapped "submit" (get submit_events "submit") 22)])
       start 27, 29) /\
  exists id,
    get (bundle_of score_context ["score"]
           (VObj 26
              [("submit", wrapped "submit" (get submit_events "submit") 22)])
           start 27) "types" = VObj id []
    /\ deep_equal
         (get (bundle_of score_context ["score"]
                 (VObj 26
                    [("submit",
                      wrapped "submit" (get submit_events "submit") 22)])
                 start 27) "types")
         (VObj 0 []).
Proof.
  split; [reflexivity |].
  exact (createSchemas_types_empty createEventSchemas score_context
           submit_events _ start 29 eq_refl).
Defined.

(** The event [answer], with one payload property [text]. *)
Lemma createEventSchemas_event_schema_witness :
  In "answer" (declared_keys answer_events) /\
  exists schemas k,
    createEventSchemas answer_events start = Returns (schemas, k) /\
    let schema := get schemas "answer" in
    get schema "additionalProperties" = VBool false /\
    In (VStr "type") (elements (get schema "required")) /\
    deep_equal (get (get schema "properties") "type")
               (VObj 0 [("const", VStr "answer")]) /\
    (forall p,
       In p (declared_keys (payload (get answer_events "answer"))) ->
       p <> discriminant ->
       get (get schema "properties") p
       = get (payload (get answer_events "answer")) p).
Proof.
  assert (H1 : In "answer" (declared_keys answer_events))
    by (left; reflexivity).
  split; [exact H1 |].
  exact (createEventSchemas_event_schema answer_events "answer" start H1).
Defined.

(** A payload that declares a property named [type]: the schema fixes
    [type] to the constant, so the declared property is not carried; and no
    schema at all could do both. *)
Lemma createEventSchemas_type_clash :
  In "submit" (declared_keys clashing_events)
  /\ exists schemas k,
       createEventSchemas clashing_events start = Returns (schemas, k)
       /\ get (payload (get clashing_events "submit")) "type" = string_field
       /\ get (get (get schemas "submit") "properties") "type"
          = VObj 20 [("const", VStr "submit")]
       /\ get (get (get schemas "submit") "properties") "type"
          <> get (payload (get clashing_events "submit")) "type"
       /\ (forall schema,
             deep_equal (get (get schema "properties") "type")
                        (VObj 0 [("const", VStr "submit")]) ->
             get (get schema "properties") "type"
             <> get (payload (get clashing_events "submit")) "type").
Proof.
  split; [left; reflexivity |].
  eexists _, _. split; [reflexivity |].
  split; [reflexivity |]. split; [reflexivity |].
  split; [discriminate |].
  intros schema Hconst Hsame. rewrite Hsame in Hconst. discriminate Hconst.
Qed.

End BuilderWithEvents.

(* ================================================================== *)
(** * The actor constructors                                           *)
(* ================================================================== *)

Section Actors.
Import Adapter.

Context {Input Chunk Cause Args Output Event : Type}.

Variable a : @StatelyAgentAdapter Chunk Cause.
Variable inputFn : Input -> Prompt.

Lemma requestCompletion_run (r : ChatRequest) :
  @requestCompletion Chunk Cause Args Event a r =
  ([Request r],
   match complete (transport a) r with
   | inl c => inl c
   | inr cause => inr (CompletionRequestError cause)
   end).
Proof.
  unfold requestCompletion, andThen, perform. simpl.
  destruct (complete (transport a) r); reflexivity.
Qed.

Lemma dispatchAll_run (events : list Event) :
  @dispatchAll Cause Args Event events = (map Dispatch events, inl tt).
Proof.
  induction events as [|e es IH]; simpl.
  - reflexivity.
  - rewrite IH. reflexivity.
Qed.

Lemma mapChoices_mapped (toEvent : Choice -> option Event)
    (cs : list Choice) (events : list Event) :
  Forall2 (fun c e => toEvent c = Some e) cs events ->
  @mapChoices Cause Args Event toEvent cs = ([], inl events).
Proof.
  induction 1 as [|c e cs es Hc _ IH]; simpl.
  - reflexivity.
  - rewrite Hc, IH. reflexivity.
Qed.

Lemma matchCalls_unknown (tools : list (string * @Tool Args Output))
    (calls : list ToolCall) (call : ToolCall) :
  In call calls ->
  findTool tools (call_name call) = None ->
  @matchCalls Cause Args Output Event tools calls
  = ([], inr UnknownToolError).
Proof.
  intros Hin Hnone. induction calls as [|c cs IH]; simpl.
  - contradiction.
  - destruct (findTool tools (call_name c)) as [t|] eqn:Hc.
    + destruct Hin as [->|Hin]; [congruence |].
      rewrite (IH Hin). reflexivity.
    + reflexivity.
Qed.

Lemma relay_chunks (chunks : list Chunk) (rest : list (@Signal Chunk Cause)) :
  relay (map Arrives chunks ++ rest) = map Next chunks ++ relay rest.
Proof.
  induction chunks as [|c cs IH]; simpl.
  - reflexivity.
  - now rewrite IH.
Qed.

(** C7: for every input, the actor built by [fromChat] evaluates [inputFn]
    on it, wraps a string result as a single-message request under the
    adapter's model, issues exactly one request via the transport, resolves
    with the full completion result when the transport succeeds (so with
    exactly R under a stub that answers R to every request), and rejects
    with CompletionRequestError carrying the cause when it fails. *)
Theorem fromChat_round_trip (input : Input) :
  let r := toRequest a (inputFn input) in
  let run := @fromChat Input Chunk Cause Args Event a inputFn input in
  (forall s, inputFn input = Text s ->
     r = {| req_model := model a;
            req_messages := [{| content := s |}];
            req_functions := [] |})
  /\ fst run = [Request r]
  /\ (forall R, complete (transport a) r = inl R -> snd run = inl R)
  /\ (forall cause, complete (transport a) r = inr cause ->
        snd run = inr (CompletionRequestError cause))
  /\ (forall R, (forall q, complete (transport a) q = inl R) ->
        snd run = inl R).
Proof.
  intros r run. subst run. unfold fromChat. fold r.
  rewrite requestCompletion_run. simpl.
  split; [| split; [| split; [| split]]].
  - intros s Hs. subst r. now rewrite Hs.
  - reflexivity.
  - intros R ->. reflexivity.
  - intros cause ->. reflexivity.
  - intros R HR. now rewrite HR.
Qed.

(** C8: when the completion lists choices mapped to the events E1..En, a
    [fromEventChoice] actor with execute at its default, or set to true,
    performs after its request exactly the dispatches E1, ..., En in that
    order and then resolves with the event list; with execute false it
    dispatches nothing and still resolves with the list; in both cases the
    result is undefined when no choices were returned. *)
Theorem fromEventChoice_dispatch_order
    (toEvent : Choice -> option Event) (options : option Options)
    (input : Input) (completion : Completion) (events : list Event) :
  complete (transport a) (toRequest a (inputFn input)) = inl completion ->
  Forall2 (fun c e => toEvent c = Some e) (choices completion) events ->
  let r := toRequest a (inputFn input) in
  let run := @fromEventChoice Input Chunk Cause Args Event
               a toEvent inputFn options input in
  shouldExecute None = true
  /\ shouldExecute (Some {| execute := None |}) = true
  /\ (shouldExecute options = true ->
        run = (Request r :: map Dispatch events,
               inl (produced (choices completion) events)))
  /\ (shouldExecute options = false ->
        run = ([Request r], inl (produced (choices completion) events)))
  /\ (choices completion = [] -> snd run = inl None)
  /\ (choices completion <> [] -> snd run = inl (Some events)).
Proof.
  intros Hc Hmap r run.
  assert (Hrun : run =
                 (Request r :: (if shouldExecute options
                                then map Dispatch events else []),
                  inl (produced (choices completion) events))).
  { subst run. unfold fromEventChoice. fold r.
    rewrite requestCompletion_run. fold r in Hc. rewrite Hc.
    cbn [andThen]. rewrite (mapChoices_mapped _ _ _ Hmap).
    cbn [andThen]. destruct (shouldExecute options).
    - rewrite dispatchAll_run. cbn. now rewrite app_nil_r.
    - reflexivity. }
  split; [reflexivity |]. split; [reflexivity |].
  split; [| split; [| split]].
  - intros He. now rewrite Hrun, He.
  - intros He. now rewrite Hrun, He.
  - intros Hnil. rewrite Hrun, Hnil. reflexivity.
  - intros Hne. rewrite Hrun. simpl.
    destruct (choices completion); [contradiction | reflexivity].
Qed.

(** C9: when the completion selects a tool call whose name is absent from
    the tools registry, the [fromToolChoice] actor rejects with
    UnknownToolError, and its run dispatches no event to the parent (it
    consists of the request alone). *)
Theorem fromToolChoice_unknown_tool
    (parseArgs : JS.value -> string -> option Args)
    (toolEvent : string -> Args -> option Output -> Event)
    (tools : list (string * Tool)) (options : option Options)
    (input : Input) (completion : Completion) (call : ToolCall) :
  complete (transport a) (augment (toRequest a (inputFn input)) tools)
  = inl completion ->
  In call (toolCalls completion) ->
  findTool tools (call_name call) = None ->
  let run := @fromToolChoice Input Chunk Cause Args Output Event
               a parseArgs toolEvent inputFn tools options input in
  snd run = inr UnknownToolError
  /\ (forall e, ~ In (Dispatch e) (fst run))
  /\ fst run = [Request (augment (toRequest a (inputFn input)) tools)].
Proof.
  intros Hc Hin Hnone run.
  assert (Hrun : run =
                 ([Request (augment (toRequest a (inputFn input)) tools)],
                  inr UnknownToolError)).
  { subst run. unfold fromToolChoice.
    rewrite requestCompletion_run, Hc. cbn [andThen].
    rewrite (matchCalls_unknown _ _ _ Hin Hnone). reflexivity. }
  rewrite Hrun. simpl. split; [reflexivity |]. split; [| reflexivity].
  intros e [H|[]]. discriminate H.
Qed.

(** C10: a [fromChatStream] actor emits the chunks in the order they arrive
    on the transport's streaming channel; it completes when the transport
    signals end-of-stream; a transport error ends the sequence with
    StreamError; and after either end nothing more is emitted, whatever
    the channel still carries. *)
Theorem fromChatStream_emissions
    (input : Input) (chunks : list Chunk) (rest : list Signal) :
  let r := toRequest a (inputFn input) in
  let emitted := snd (@fromChatStream Input Chunk Cause Args Event
                        a inputFn input) in
  (open_stream (transport a) r = map Arrives chunks ->
     emitted = map Next chunks)
  /\ (open_stream (transport a) r = map Arrives chunks ++ EndOfStream :: rest ->
        emitted = map Next chunks ++ [Complete])
  /\ (forall cause,
        open_stream (transport a) r
        = map Arrives chunks ++ Breaks cause :: rest ->
        emitted = map Next chunks ++ [Error (StreamError cause)]).
Proof.
  intros r emitted. subst emitted. unfold fromChatStream. fold r. simpl.
  split; [| split].
  - intros ->. rewrite <- (app_nil_r (map Arrives chunks)).
    rewrite relay_chunks. simpl. now rewrite app_nil_r.
  - intros ->. now rewrite relay_chunks.
  - intros cause ->. now rewrite relay_chunks.
Qed.

End Actors.

(* ================================================================== *)
(** * The actors on the stub transports                                *)
(* ================================================================== *)

Section ActorExamples.
Import Adapter Stub.

(** A stub that answers every request with [abc], and one that fails. *)
Lemma fromChat_round_trip_witness :
  @fromChat string string string string string (gpt (echo abc)) prompt "hello"
  = ([Request hello], inl abc)
  /\ @fromChat string string string string string
       (gpt (failing "timeout")) prompt "hello"
     = ([Request hello], inr (CompletionRequestError "timeout")).
Proof.
  split.
  - pose proof (@fromChat_round_trip string string string string string
                  (gpt (echo abc)) prompt "hello") as H.
    cbv zeta in H. destruct H as (_ & Ht & _ & _ & Hs).
    specialize (Hs abc (fun _ => eq_refl)).
    apply injective_projections; [exact Ht | exact Hs].
  - pose proof (@fromChat_round_trip string string string string string
                  (gpt (failing "timeout")) prompt "hello") as H.
    cbv zeta in H. destruct H as (_ & Ht & _ & Hf & _).
    specialize (Hf "timeout" eq_refl).
    apply injective_projections; [exact Ht | exact Hf].
Defined.

(** Choices a, b, c: dispatched in that order by default, not at all with
    execute false. *)
Lemma fromEventChoice_dispatch_order_witness :
  complete (transport (gpt (echo abc))) (toRequest (gpt (echo abc)) (prompt "hello"))
  = inl abc
  /\ Forall2 (fun c e => toEvent c = Some e) (choices abc) ["a"; "b"; "c"]
  /\ @fromEventChoice string string string string string
       (gpt (echo abc)) toEvent prompt None "hello"
     = ([Request hello; Dispatch "a"; Dispatch "b"; Dispatch "c"],
        inl (Some ["a"; "b"; "c"]))
  /\ @fromEventChoice string string string string string
       (gpt (echo abc)) toEvent prompt (Some {| execute := Some false |})
       "hello"
     = ([Request hello], inl (Some ["a"; "b"; "c"])).
Proof.
  assert (Hm : Forall2 (fun c e => toEvent c = Some e) (choices abc)
                 ["a"; "b"; "c"]) by (repeat constructor).
  split; [reflexivity |]. split; [exact Hm |]. split.
  - pose proof (@fromEventChoice_dispatch_order
                  string string string string string
                  (gpt (echo abc)) prompt toEvent None "hello" abc
                  ["a"; "b"; "c"] eq_refl Hm) as H.
    cbv zeta in H. destruct H as (_ & _ & Hon & _).
    exact (Hon eq_refl).
  - pose proof (@fromEventChoice_dispatch_order
                  string string string string string
                  (gpt (echo abc)) prompt toEvent
                  (Some {| execute := Some false |}) "hello" abc
                  ["a"; "b"; "c"] eq_refl Hm) as H.
    cbv zeta in H. destruct H as (_ & _ & _ & Hoff & _).
    exact (Hoff eq_refl).
Defined.

(** Registry [{ search }], tool call [lookup]. *)
Lemma fromToolChoice_unknown_tool_witness :
  let call := {| call_name := "lookup"; call_arguments := "{}" |} in
  let run := @fromToolChoice string string string string string string
               (gpt (echo lookup_call)) parseArgs toolEvent prompt registry
               None "hello" in
  In call (toolCalls lookup_call)
  /\ findTool registry (call_name call) = None
  /\ snd run = inr UnknownToolError
  /\ (forall e, ~ In (Dispatch e) (fst run)).
Proof.
  intros call run.
  assert (Hin : In call (toolCalls lookup_call)) by (left; reflexivity).
  split; [exact Hin |]. split; [reflexivity |].
  pose proof (@fromToolChoice_unknown_tool
                string string string string string string
                (gpt (echo lookup_call)) prompt parseArgs toolEvent registry
                None "hello" lookup_call call eq_refl Hin eq_refl) as H.
  cbv zeta in H. destruct H as (Hs & Hd & _).
  split; [exact Hs | exact Hd].
Defined.

(** A stream that ends, and one that breaks after its first chunk while
    the channel still carries another. *)
Lemma fromChatStream_emissions_witness :
  snd (@fromChatStream string string string string string
         (gpt (echo abc)) prompt "hello")
  = [Next "x"; Next "y"; Complete]
  /\ snd (@fromChatStream string string string string string
            (gpt (failing "reset")) prompt "hello")
     = [Next "x"; Error (StreamError "reset")].
Proof.
  split.
  - pose proof (@fromChatStream_emissions string string string string string
                  (gpt (echo abc)) prompt "hello" ["x"; "y"] []) as H.
    cbv zeta in H. destruct H as (_ & He & _).
    exact (He eq_refl).
  - pose proof (@fromChatStream_emissions string string string string string
                  (gpt (failing "reset")) prompt "hello" ["x"]
                  [Arrives "y"]) as H.
    cbv zeta in H. destruct H as (_ & _ & Hb).
    exact (Hb "reset" eq_refl).
Defined.

End ActorExamples.

(* ================================================================== *)
(** * The schema builder as the quiz calls it                          *)
(* ================================================================== *)

Section BuilderCallers.
Import JS Schemas.

Variable ces : value -> M value.

Lemma sort_indices_of_sorted (ks : list string) :
  Sorted index_le ks -> sort_indices ks = ks.
Proof.
  induction ks as [|k ks IH]; intros Hs; [reflexivity |].
  apply Sorted_inv in Hs as [Hs Hhd]. simpl. rewrite (IH Hs).
  destruct ks as [|k' ks]; [reflexivity |].
  apply HdRel_inv in Hhd. simpl.
  apply N.leb_le in Hhd. now rewrite Hhd.
Qed.

Lemma filter_filter_negb {A} (f : A -> bool) (l : list A) :
  filter f (filter (fun a => negb (f a)) l) = [].
Proof.
  induction l as [|a l IH]; simpl; [reflexivity |].
  destruct (f a) eqn:Hf; simpl; [exact IH | now rewrite Hf].
Qed.

Lemma filter_twice {A} (f : A -> bool) (l : list A) :
  filter f (filter f l) = filter f l.
Proof.
  induction l as [|a l IH]; simpl; [reflexivity |].
  destruct (f a) eqn:Hf; simpl; [now rewrite Hf, IH | exact IH].
Qed.

Lemma filter_all {A} (f : A -> bool) (l : list A) :
  Forall (fun a => f a = true) l -> filter f l = l.
Proof.
  induction 1 as [|a l Ha _ IH]; simpl; [reflexivity |].
  now rewrite Ha, IH.
Qed.

Lemma filter_negb_all {A} (f : A -> bool) (l : list A) :
  Forall (fun a => f a = true) l -> filter (fun a => negb (f a)) l = [].
Proof.
  induction 1 as [|a l Ha _ IH]; simpl; [reflexivity |].
  now rewrite Ha.
Qed.

Lemma sorted_indices_are_indices (ks : list string) :
  Forall (fun k => is_array_index k = true)
         (sort_indices (filter is_array_index ks)).
Proof.
  apply Forall_forall. intros k Hk.
  apply (Permutation_in _ (sort_indices_perm _)) in Hk.
  now apply filter_In in Hk.
Qed.

(** The order of [Object.keys] is a fixed point: listing the keys again
    changes nothing. *)
Lemma own_property_keys_idem (ks : list string) :
  own_property_keys (own_property_keys ks) = own_property_keys ks.
Proof.
  pose proof (sorted_indices_are_indices ks) as Hi.
  assert (Hidx : filter is_array_index (own_property_keys ks)
                 = sort_indices (filter is_array_index ks)).
  { unfold own_property_keys. rewrite filter_app.
    rewrite (filter_all _ _ Hi), filter_filter_negb. apply app_nil_r. }
  assert (Hoth : filter (fun k => negb (is_array_index k))
                   (own_property_keys ks)
                 = filter (fun k => negb (is_array_index k)) ks).
  { unfold own_property_keys. rewrite filter_app.
    rewrite (filter_negb_all _ _ Hi). simpl.
    apply (filter_twice (fun k => negb (is_array_index k))). }
  unfold own_property_keys at 1. rewrite Hidx, Hoth.
  unfold own_property_keys. f_equal.
  apply sort_indices_of_sorted, sort_indices_sorted.
Qed.


(** X2: the required list is stable under re-declaration: for a context
    whose fields are declared in the order in which [Object.keys] lists
    the fields of some context, the required list is its own declaration
    order. *)
Theorem createSchemas_required_canonical
    (id id' : nat) (fields fields' : list (string * value))
    (events : value) (n : nat) :
  declared_keys (VObj id' fields')
  = own_property_keys (declared_keys (VObj id fields)) ->
  createSchemas ces (VObj id' fields') events n =
  match ces events (S (S n)) with
  | Returns (es, k) =>
      Returns (bundle_of (VObj id' fields')
                 (declared_keys (VObj id' fields')) es n k, S (S k))
  | Throws e => Throws e
  end.
Proof.
  intros Hkeys.
  assert (Hfix : own_property_keys (declared_keys (VObj id' fields'))
                 = declared_keys (VObj id' fields')).
  { rewrite Hkeys. apply own_property_keys_idem. }
  rewrite createSchemas_run.
  rewrite enumerable_keys_object by reflexivity.
  now rewrite Hfix.
Qed.

End BuilderCallers.

(* ================================================================== *)
(** * The quiz: level table and ratings                                *)
(* ================================================================== *)

Section QuizLevels.
Import JS Quiz.
Local Open Scope Z_scope.

Lemma split_not_nil (sep : ascii) (s : string) : split sep s <> [].
Proof.
  destruct s as [|c rest]; simpl; [discriminate |].
  destruct (Ascii.eqb c sep); [discriminate |].
  destruct (split sep rest); discriminate.
Qed.

(** X3: splitting loses nothing and leaves no separator behind: joining
    the pieces of [s.split(sep)] with the separator gives [s] back, and no
    piece contains the separator. *)
Theorem split_join (sep : ascii) (s : string) :
  String.concat (String sep EmptyString) (split sep s) = s
  /\ Forall (fun piece => occurs sep piece = false) (split sep s).
Proof.
  induction s as [|c rest [IHj IHp]]; simpl.
  - split; [reflexivity | repeat constructor].
  - destruct (Ascii.eqb c sep) eqn:Hc.
    + apply Ascii.eqb_eq in Hc. subst c. split.
      * pose proof (split_not_nil sep rest) as Hne.
        simpl. destruct (split sep rest) as [|p ps]; [contradiction |].
        simpl in IHj |- *. now rewrite IHj.
      * constructor; [reflexivity | exact IHp].
    + pose proof (split_not_nil sep rest) as Hne.
      destruct (split sep rest) as [|p ps]; [contradiction |]. split.
      * simpl in IHj |- *. destruct ps as [|p' ps].
        -- now rewrite IHj.
        -- simpl. now rewrite <- IHj.
      * inversion IHp as [|? ? Hp Hps]; subst.
        constructor; [| exact Hps]. simpl. now rewrite Hc.
Qed.





Lemma levels_length : List.length levels = 11%nat.
Proof. reflexivity. Qed.

Lemma difficultyRating_whole (d : Z) :
  ((exists rating, difficultyRating d = Returns rating) <-> 1 <= d <= 11)
  /\ (difficultyRating d = Throws TypeError <-> ~ 1 <= d <= 11).
Proof.
  assert (Hat : at_index levels (d - 1) <> None <-> 1 <= d <= 11).
  { unfold at_index. destruct (Z.ltb_spec (d - 1) 0) as [Hneg|Hpos].
    - split; [congruence | lia].
    - rewrite nth_error_Some, levels_length. lia. }
  unfold difficultyRating.
  destruct (at_index levels (d - 1)) as [level|].
  - assert (Hd : 1 <= d <= 11) by (apply Hat; discriminate).
    split; split; intros H; try assumption.
    + eexists; reflexivity.
    + discriminate H.
    + contradiction.
  - assert (Hd : ~ 1 <= d <= 11) by (intros H; apply Hat in H; congruence).
    split; split; intros H; try assumption.
    + destruct H as [r Hr]. discriminate Hr.
    + contradiction.
    + reflexivity.
Qed.

Lemma whole_denotes (n : number) (d : Z) :
  whole n = Some d <-> denotes n d.
Proof.
  destruct n as [| |[a b]|]; simpl; try (split; [discriminate | tauto]).
  unfold QArith_base.Qeq. simpl.
  pose proof (Z.div_mod a (Z.pos b) ltac:(lia)) as Hdiv.
  destruct (Z.eqb_spec (a mod Z.pos b) 0) as [Hz|Hnz].
  - split.
    + intros H. injection H as <-. nia.
    + intros H. f_equal. symmetry. apply Z.div_unique_exact; lia.
  - split; [discriminate |].
    intros H. exfalso. apply Hnz.
    replace a with (d * Z.pos b) by lia. apply Z.mod_mul. lia.
Qed.

(** X5: [difficultyRating] returns exactly on the whole numbers 1 to 11
    ([levels] has eleven entries); on every other number, be it a whole
    number outside that range, a fraction, NaN or an infinity,
    [levels[difficultyLevel - 1]] is undefined and the call throws a
    TypeError. *)
Theorem difficultyRating_defined (n : number) :
  ((exists rating, difficultyRatingOf n = Returns rating)
   <-> exists d, denotes n d /\ 1 <= d <= 11)
  /\ (difficultyRatingOf n = Throws TypeError
      <-> ~ exists d, denotes n d /\ 1 <= d <= 11).
Proof.
  unfold difficultyRatingOf. destruct (whole n) as [d|] eqn:Hw.
  - destruct (difficultyRating_whole d) as [Hret Hthrow].
    assert (Hsame : forall d', denotes n d' -> d' = d).
    { intros d' Hd'. apply whole_denotes in Hd'. congruence. }
    apply whole_denotes in Hw. split; split.
    + intros H. exists d. split; [exact Hw | now apply Hret].
    + intros (d' & Hd' & Hr). apply Hsame in Hd'. subst d'.
      now apply Hret.
    + intros H (d' & Hd' & Hr). apply Hsame in Hd'. subst d'.
      now apply Hthrow in H.
    + intros H. apply Hthrow. intros Hr. apply H. now exists d.
  - assert (Hno : forall d, ~ denotes n d).
    { intros d Hd. apply whole_denotes in Hd. congruence. }
    split; split.
    + intros [r Hr]. discriminate Hr.
    + intros (d & Hd & _). now apply Hno in Hd.
    + intros _ (d & Hd & _). now apply Hno in Hd.
    + reflexivity.
Qed.

(** The levels 1.5 and NaN, and the whole level 3 written as 6/2. *)
Lemma difficultyRating_samples :
  difficultyRatingOf (Finite (QArith_base.Qmake 3 2)) = Throws TypeError
  /\ difficultyRatingOf NaN = Throws TypeError
  /\ difficultyRatingOf PosInfinity = Throws TypeError
  /\ difficultyRatingOf (Finite (QArith_base.Qmake 6 2))
     = Returns "Easy"%string
  /\ difficultyRatingOf (Finite (QArith_base.inject_Z 12))
     = Throws TypeError.
Proof. repeat split; reflexivity. Qed.

Lemma level_cases (d : Z) :
  1 <= d <= 10 ->
  d = 1 \/ d = 2 \/ d = 3 \/ d = 4 \/ d = 5 \/ d = 6 \/ d = 7 \/ d = 8
  \/ d = 9 \/ d = 10.
Proof. lia. Qed.

Lemma rating_of_level (d : Z) :
  1 <= d <= 10 ->
  exists level rating,
    at_index levels (d - 1) = Some level
    /\ difficultyRating d = Returns rating
    /\ String.prefix rating level = true
    /\ occurs ":"%char rating = false
    /\ (rating = EmptyString <-> d = 1)
    /\ (d <> 1 -> In level level_lines).
Proof.
  intros Hd.
  destruct (level_cases d Hd)
    as [->|[->|[->|[->|[->|[->|[->|[->|[->| ->]]]]]]]]];
    eexists _, _;
    (split; [reflexivity |]); (split; [reflexivity |]);
    (split; [reflexivity |]); (split; [reflexivity |]);
    (split; [split; intros H; solve [discriminate H | reflexivity] |]);
    intros Hne; try (exfalso; apply Hne; reflexivity);
    cbn; tauto.
Qed.


End QuizLevels.

(* ================================================================== *)
(** * The quiz: grading and the machine's runs                         *)
(* ================================================================== *)

Section QuizMachine.
Import JS Quiz.
Local Open Scope Z_scope.

Variable Number : string -> number.

(** X7: grading keeps the level among the ten and moves it by one step at
    most; it leaves the level where it is only at the ends, after a right
    answer at level 10 or a wrong one at level 1. *)
Theorem grade_level_in_range (c : context) :
  1 <= difficultyLevel c <= 10 ->
  let c' := grade c in
  1 <= difficultyLevel c' <= 10
  /\ Z.abs (difficultyLevel c' - difficultyLevel c) <= 1
  /\ (difficultyLevel c' = difficultyLevel c <->
      (String.prefix "Yes" (answerResponse c) = true
       /\ difficultyLevel c = 10)
      \/ (String.prefix "Yes" (answerResponse c) = false
          /\ difficultyLevel c = 1)).
Proof.
  intros Hd. unfold grade.
  destruct (String.prefix "Yes" (answerResponse c)); simpl;
    (split; [lia |]); (split; [lia |]); split.
  - intros H. left. split; [reflexivity | lia].
  - intros [[_ H]|[H _]]; [lia | discriminate].
  - intros H. right. split; [reflexivity | lia].
  - intros [[H _]|[_ H]]; [discriminate | lia].
Qed.

(** X8: grading never lowers the score: at a level among the ten it adds
    ten times the level for an answer that starts with "Yes" and nothing
    otherwise, so between 0 and 100 points, and it touches nothing but the
    score and the level. *)
Theorem grade_score (c : context) :
  1 <= difficultyLevel c <= 10 ->
  let c' := grade c in
  score c <= score c' <= score c + 100
  /\ (10 | score c' - score c)
  /\ (score c' = score c <->
      String.prefix "Yes" (answerResponse c) = false)
  /\ questionNumber c' = questionNumber c
  /\ numberOfQuestions c' = numberOfQuestions c
  /\ currentTopic c' = currentTopic c
  /\ currentQuestion c' = currentQuestion c
  /\ currentAnswer c' = currentAnswer c
  /\ answerResponse c' = answerResponse c.
Proof.
  intros Hd. unfold grade.
  destruct (String.prefix "Yes" (answerResponse c)); simpl;
    (split; [lia |]); split.
  - exists (difficultyLevel c). lia.
  - split; [| repeat split]. split; [lia | discriminate].
  - exists 0. lia.
  - split; [| repeat split]. split; reflexivity.
Qed.

Ltac fields :=
  cbn [score difficultyLevel questionNumber numberOfQuestions
       answerResponse currentTopic currentQuestion currentAnswer].

Lemma step_sound (cfg : state * context) (e : event) :
  sound cfg -> sound (step Number cfg e).
Proof.
  destruct cfg as [s c]. intros (Hd & Hq & Hs & [m Hm] & Hb).
  assert (Hweak : score c <= 100 * questionNumber c)
    by (destruct (graded s); lia).
  destruct s, e; cbn -[Z.mul Z.add Z.sub Z.min Z.max] in *;
    try (repeat split; solve [lia | exists m; lia]).
  (* Checking answer, done *)
  unfold enterWaiting, lastQuestion, grade. fields.
  destruct (String.prefix "Yes" content); fields;
    destruct (ge (questionNumber c) (numberOfQuestions c));
    unfold sound; fields; cbn [graded];
    repeat split;
    solve [lia | exists m; lia | exists (m + difficultyLevel c); lia].
Qed.

Lemma run_from_sound (events : list event) (cfg : state * context) :
  sound cfg -> sound (fold_left (step Number) events cfg).
Proof.
  revert cfg. induction events as [|e events IH]; intros cfg H; simpl.
  - exact H.
  - apply IH, step_sound, H.
Qed.

Lemma initial_sound : sound initial.
Proof.
  cbn -[Z.mul Z.add Z.sub]. repeat split; try lia. exists 0. lia.
Qed.

Lemma run_sound (events : list event) : sound (run Number events).
Proof. apply run_from_sound, initial_sound. Qed.

(** X9: in every configuration the machine can reach, whatever events
    arrive and whatever [Number] returns, the level is one of 1 to 10,
    questions are counted from 1, and the score is a multiple of ten
    between 0 and a hundred points per question. *)
Theorem run_keeps_levels_and_score (events : list event) :
  let c := snd (run Number events) in
  1 <= difficultyLevel c <= 10
  /\ 1 <= questionNumber c
  /\ 0 <= score c <= 100 * questionNumber c
  /\ (10 | score c).
Proof.
  pose proof (run_sound events) as H.
  destruct (run Number events) as [s c].
  destruct H as (Hd & Hq & Hs & Hm & Hb). cbn [snd].
  repeat split; try lia; try assumption.
  destruct (graded s); lia.
Qed.

(** X10: in every configuration the machine can reach, the rating of the
    current level is there to be shown: [difficultyRating] returns (its
    non-null assertion holds) a name without a colon, and the prompt of
    [fetchQuestion] carries a line of the level table, not "undefined". *)
Theorem run_rating_defined (events : list event) :
  let c := snd (run Number events) in
  exists level rating,
    difficultyRating (difficultyLevel c) = Returns rating
    /\ occurs ":"%char rating = false
    /\ In level levels
    /\ fetchQuestionInput (currentTopic c) (difficultyLevel c)
       = ("Ask me an objective short answer question about "
          ++ currentTopic c ++ ". The level of difficulty is " ++ level
          ++ ". Just return the question")%string.
Proof.
  pose proof (run_sound events) as H.
  destruct (run Number events) as [s c]. cbn [snd].
  destruct H as (Hd & _).
  destruct (rating_of_level _ Hd)
    as (level & rating & Hat & Hr & _ & Hc & _).
  exists level, rating. split; [exact Hr |]. split; [exact Hc |]. split.
  - unfold at_index in Hat.
    destruct (difficultyLevel c - 1 <? 0); [discriminate |].
    eapply nth_error_In, Hat.
  - unfold fetchQuestionInput. now rewrite Hat.
Qed.

Lemma step_paced (cfg : state * context) (e : event) :
  paced cfg -> paced (step Number cfg e).
Proof.
  destruct cfg as [s c]. intros H.
  destruct s, e; cbn -[Z.mul Z.add Z.sub Z.min Z.max] in *;
    try assumption; try exact I; try (left; assumption);
    try (right;
         replace (questionNumber c + 1 - 1) with (questionNumber c) by lia;
         exact H).
  (* Checking answer, done *)
  unfold enterWaiting, lastQuestion, grade. fields.
  destruct (String.prefix "Yes" content); fields;
    destruct (ge (questionNumber c) (numberOfQuestions c)) eqn:Hge;
    unfold paced, lastQuestion; fields; solve [exact I | exact Hge].
Qed.

Lemma run_from_paced (events : list event) (cfg : state * context) :
  paced cfg -> paced (fold_left (step Number) events cfg).
Proof.
  revert cfg. induction events as [|e events IH]; intros cfg H; simpl.
  - exact H.
  - apply IH, step_paced, H.
Qed.

Lemma ge_false_cases (i : Z) (n : number) :
  ge i n = false ->
  n = NaN \/ n = PosInfinity
  \/ exists q, n = Finite q
               /\ QArith_base.Qlt (QArith_base.inject_Z i) q.
Proof.
  destruct n as [| |q|]; simpl; intros H.
  - now left.
  - discriminate H.
  - right. right. exists q. split; [reflexivity |].
    apply QArith_base.Qnot_le_lt. intros Hle.
    apply QArith_base.Qle_bool_iff in Hle. congruence.
  - right. now left.
Qed.

(** X11: the machine goes on to another question only where the test
    [questionNumber >= numberOfQuestions] of line 318 failed: whenever it
    is busy with a question after the first, [numberOfQuestions] is NaN or
    +Infinity, or it is a number strictly above the number of the question
    before; and the same holds of the current question while the machine
    waits for the next one. The first question is asked whatever the count
    is. *)
Theorem run_counts_within_questions (events : list event) :
  let (s, c) := run Number events in
  (asking s = true ->
     questionNumber c = 1
     \/ numberOfQuestions c = NaN
     \/ numberOfQuestions c = PosInfinity
     \/ exists q, numberOfQuestions c = Finite q
                  /\ QArith_base.Qlt
                       (QArith_base.inject_Z (questionNumber c - 1)) q)
  /\ (s = Waiting_for_next_question ->
      numberOfQuestions c = NaN
      \/ numberOfQuestions c = PosInfinity
      \/ exists q, numberOfQuestions c = Finite q
                   /\ QArith_base.Qlt
                        (QArith_base.inject_Z (questionNumber c)) q).
Proof.
  assert (H0 : paced initial) by reflexivity.
  pose proof (run_from_paced events initial H0) as H.
  unfold run. destruct (fold_left (step Number) events initial) as [s c].
  destruct s; cbn [paced asking] in *; split; intros Hs;
    try discriminate Hs;
    try (destruct H as [H|H]; [now left | right; now apply ge_false_cases]);
    try (now apply ge_false_cases).
Qed.

Lemma step_endless (cfg : state * context) (e : event) :
  (forall output, e = UserInput output -> Number output = NaN) ->
  e <> end_game ->
  endless cfg -> endless (step Number cfg e).
Proof.
  destruct cfg as [s c]. intros HN He [Hs Hn].
  destruct s, e; cbn -[Z.mul Z.add Z.sub Z.min Z.max] in *;
    try congruence;
    try (split; [discriminate | intros; apply Hn; discriminate]);
    try (split; [discriminate | intros; apply (HN _ eq_refl)]);
    try (split; [discriminate | intros _ Hq; contradiction]);
    try (split; [discriminate | intros Hq; contradiction]).
  (* Checking answer, done *)
  assert (HNaN : numberOfQuestions c = NaN) by (apply Hn; discriminate).
  unfold enterWaiting, lastQuestion, grade. fields.
  destruct (String.prefix "Yes" content); fields; rewrite HNaN;
    cbn [ge endless]; fields;
    (split; [discriminate | intros; reflexivity]).
Qed.

(** X12: a count of questions that is not a number ends nothing: when the
    texts typed convert to NaN and no "end game" event arrives, the
    machine never reaches "Game over", however many questions go by. *)
Theorem run_endless_on_NaN (events : list event) :
  (forall output, In (UserInput output) events -> Number output = NaN) ->
  ~ In end_game events ->
  fst (run Number events) <> Game_over.
Proof.
  intros HN He.
  assert (H : forall cfg, endless cfg ->
                          endless (fold_left (step Number) events cfg)).
  { clear -HN He. induction events as [|e events IH]; intros cfg H; simpl.
    - exact H.
    - apply IH.
      + intros output Hin. apply HN. now right.
      + intros Hin. apply He. now right.
      + apply step_endless; [| | exact H].
        * intros output ->. apply HN. now left.
        * intros ->. apply He. now left. }
  assert (H0 : endless initial) by (split; [discriminate | congruence]).
  specialize (H initial H0). unfold run.
  destruct (fold_left (step Number) events initial) as [s c].
  exact (proj1 H).
Qed.

(** X13: the score and the level change nowhere but where an answer is
    checked: every event other than the verdict arriving in "Checking
    answer" leaves both as they are. *)
Theorem step_frames_score (s : state) (c : context) (e : event) :
  (s <> Checking_answer \/ forall content, e <> Completion content) ->
  score (snd (step Number (s, c) e)) = score c
  /\ difficultyLevel (snd (step Number (s, c) e)) = difficultyLevel c.
Proof.
  intros H. destruct s, e; cbn -[Z.mul Z.add Z.sub Z.min Z.max];
    try (split; reflexivity).
  destruct H as [H|H]; [contradiction | now destruct (H content)].
Qed.

Lemma game_over_stays (events : list event) (c : context) :
  fold_left (step Number) events (Game_over, c) = (Game_over, c).
Proof.
  induction events as [|e events IH]; simpl; [reflexivity | exact IH].
Qed.

(** X14: "end game" ends the game from anywhere and for good: once that
    event is among those received, the machine is in "Game over",
    whatever came before and whatever comes after. *)
Theorem end_game_is_final (events : list event) (cfg : state * context) :
  In end_game events ->
  fst (fold_left (step Number) events cfg) = Game_over.
Proof.
  revert cfg. induction events as [|e events IH]; intros cfg Hin;
    [contradiction |].
  simpl. destruct Hin as [->|Hin]; [| now apply IH].
  destruct cfg as [s c].
  assert (Hs : step Number (s, c) end_game = (Game_over, c))
    by (destruct s; reflexivity).
  rewrite Hs, game_over_stays. reflexivity.
Qed.

Lemma ge_whole (i n : Z) :
  ge i (Finite (QArith_base.inject_Z n)) = (n <=? i).
Proof.
  unfold ge. destruct (Z.leb_spec n i) as [Hle|Hlt].
  - apply QArith_base.Qle_bool_iff.
    rewrite <- QArith_base.Zle_Qle. exact Hle.
  - destruct (QArith_base.Qle_bool (QArith_base.inject_Z n)
                (QArith_base.inject_Z i)) eqn:Hq; [| reflexivity].
    apply QArith_base.Qle_bool_iff in Hq.
    rewrite <- QArith_base.Zle_Qle in Hq. lia.
Qed.

Lemma play_from_fetching (total : Z)
    (rounds : list (string * string * string)) (c : context) :
  rounds <> [] ->
  numberOfQuestions c = Finite (QArith_base.inject_Z total) ->
  questionNumber c + Z.of_nat (List.length rounds) = total + 1 ->
  exists c',
    fold_left (step Number) (play rounds) (Fetching_question, c)
    = (Game_over, c')
    /\ questionNumber c' = total.
Proof.
  revert c. induction rounds as [|[[question answer] verdict] rest IH];
    intros c Hne HN Hq; [contradiction |].
  destruct rest as [|r rest].
  - (* the last round *)
    cbn [play round fold_left step]. unfold enterWaiting, lastQuestion, grade.
    fields. cbn [List.length] in Hq.
    destruct (String.prefix "Yes" verdict); fields;
      rewrite HN, ge_whole;
      (destruct (Z.leb_spec total (questionNumber c)) as [_|Hlt];
       [| lia]);
      eexists; (split; [reflexivity |]); fields; lia.
  - (* a round, enter, and the rest *)
    change (play ((question, answer, verdict) :: r :: rest))
      with (round (question, answer, verdict)
            ++ UserInput "" :: play (r :: rest)).
    rewrite fold_left_app.
    cbn [round fold_left step]. unfold enterWaiting, lastQuestion, grade.
    fields. cbn [List.length] in Hq.
    destruct (String.prefix "Yes" verdict); fields;
      rewrite HN, ge_whole;
      (destruct (Z.leb_spec total (questionNumber c)) as [Hle|_];
       [lia |]);
      cbn [step]; apply IH;
      [discriminate
      | unfold nextQuestion; fields; reflexivity
      | unfold nextQuestion; fields; cbn [List.length] in *; lia
      | discriminate
      | unfold nextQuestion; fields; reflexivity
      | unfold nextQuestion; fields; cbn [List.length] in *; lia].
Qed.

(** X15: a game that goes well asks exactly the number of questions asked
    for: when the count typed converts to a whole number N of at least 1,
    then after the topic, the count, and N rounds of question, answer and
    verdict with enter pressed in between, the machine is in "Game over"
    at question N. *)
Theorem play_asks_all_questions
    (topic count : string) (total : Z)
    (rounds : list (string * string * string)) :
  Number count = Finite (QArith_base.inject_Z total) ->
  Z.of_nat (List.length rounds) = total ->
  1 <= total ->
  exists c,
    run Number (UserInput topic :: UserInput count :: play rounds)
    = (Game_over, c)
    /\ questionNumber c = total.
Proof.
  intros HN Hlen Htotal. unfold run, initial.
  cbn [fold_left step]. fields.
  apply play_from_fetching.
  - intros ->. simpl in Hlen. lia.
  - fields. exact HN.
  - fields. cbn [initialContext questionNumber]. lia.
Qed.

End QuizMachine.

(* ================================================================== *)
(** * The quiz on sample runs                                          *)
(* ================================================================== *)

Section QuizExamples.
Import JS Schemas Scenario Quiz.
Local Open Scope Z_scope.

(** [{ 0: ..., b: ... }], declared in the order that [Object.keys] gives
    for [{ b: ..., 0: ... }]. *)
Lemma createSchemas_required_canonical_witness :
  declared_keys (VObj 9 [("0", number_field); ("b", string_field)])
  = own_property_keys (declared_keys indexed_context)
  /\ createSchemas Utils.createEventSchemas
       (VObj 9 [("0", number_field); ("b", string_field)])
       submit_events start
     = match Utils.createEventSchemas submit_events (S (S start)) with
       | Returns (es, k) =>
           Returns
             (bundle_of (VObj 9 [("0", number_field); ("b", string_field)])
                (declared_keys
                   (VObj 9 [("0", number_field); ("b", string_field)]))
                es start k, S (S k))
       | Throws e => Throws e
       end.
Proof.
  assert (H : declared_keys
                (VObj 9 [("0", number_field); ("b", string_field)])
              = own_property_keys (declared_keys indexed_context))
    by reflexivity.
  split; [exact H |].
  exact (createSchemas_required_canonical Utils.createEventSchemas 9 9
           [("b", string_field); ("0", number_field)]
           [("0", number_field); ("b", string_field)]
           submit_events start H).
Defined.



Lemma grade_level_in_range_witness :
  1 <= difficultyLevel answered <= 10
  /\ difficultyLevel (grade answered) = 4
  /\ 1 <= difficultyLevel (grade answered) <= 10.
Proof.
  assert (H : 1 <= difficultyLevel answered <= 10) by (simpl; lia).
  split; [exact H |]. split; [reflexivity |].
  exact (proj1 (grade_level_in_range answered H)).
Defined.

Lemma grade_score_witness :
  1 <= difficultyLevel answered <= 10
  /\ score (grade answered) = 30
  /\ score answered <= score (grade answered) <= score answered + 100.
Proof.
  assert (H : 1 <= difficultyLevel answered <= 10) by (simpl; lia).
  split; [exact H |]. split; [reflexivity |].
  exact (proj1 (grade_score answered H)).
Defined.

Lemma run_endless_on_NaN_witness :
  (forall output, In (UserInput output) wordy ->
                  (fun _ : string => NaN) output = NaN)
  /\ ~ In end_game wordy
  /\ run (fun _ => NaN) wordy
     = (Waiting_for_next_question,
        {| score := 30;
           currentTopic := "cats";
           currentQuestion := "What sound?";
           difficultyLevel := 3;
           numberOfQuestions := NaN;
           questionNumber := 2;
           answerResponse := "No, meow.";
           currentAnswer := "woof" |})
  /\ fst (run (fun _ => NaN) wordy) <> Game_over.
Proof.
  assert (H1 : forall output, In (UserInput output) wordy ->
                              (fun _ : string => NaN) output = NaN)
    by reflexivity.
  assert (H2 : ~ In end_game wordy).
  { unfold wordy. simpl. intuition discriminate. }
  split; [exact H1 |]. split; [exact H2 |]. split; [reflexivity |].
  exact (run_endless_on_NaN (fun _ => NaN) wordy H1 H2).
Defined.

(** Asking for the next question changes neither score nor level. *)
Lemma step_frames_score_witness :
  (Waiting_for_next_question <> Checking_answer
   \/ forall content, next_question <> Completion content)
  /\ score (snd (step always_two (Waiting_for_next_question, grade answered)
                  next_question)) = 30
  /\ difficultyLevel
       (snd (step always_two (Waiting_for_next_question, grade answered)
               next_question)) = 4.
Proof.
  assert (H : Waiting_for_next_question <> Checking_answer
              \/ forall content, next_question <> Completion content)
    by (left; discriminate).
  split; [exact H |].
  exact (step_frames_score always_two Waiting_for_next_question
           (grade answered) next_question H).
Defined.

(** A game ended while the topic is being asked for. *)
Lemma end_game_is_final_witness :
  In end_game [UserInput "cats"; end_game; retry; UserInput "3"]
  /\ fst (fold_left (step always_two)
            [UserInput "cats"; end_game; retry; UserInput "3"] initial)
     = Game_over.
Proof.
  assert (H : In end_game [UserInput "cats"; end_game; retry; UserInput "3"])
    by (right; left; reflexivity).
  split; [exact H |].
  exact (end_game_is_final always_two _ initial H).
Defined.

(** A game of two questions. *)
Lemma play_asks_all_questions_witness :
  always_two "2" = Finite (QArith_base.inject_Z 2)
  /\ Z.of_nat (List.length two_rounds) = 2
  /\ 1 <= 2
  /\ exists c,
       run always_two (UserInput "cats" :: UserInput "2" :: play two_rounds)
       = (Game_over, c)
       /\ questionNumber c = 2.
Proof.
  assert (H : 1 <= 2) by lia.
  split; [reflexivity |]. split; [reflexivity |]. split; [exact H |].
  exact (play_asks_all_questions always_two "cats" "2" 2 two_rounds
           eq_refl eq_refl H).
Defined.

End QuizExamples.
